(** * SharePoint connector: a shallow embedding and its verified properties

  The development follows [backend/onyx/connectors/sharepoint/connector.py].
  Python values are embedded as follows.

  - A [str] is a [string] whose characters are the bytes of its UTF-8
    encoding.  Splitting, joining, membership, prefix and equality tests on
    these bytes agree with the same operations on code points.
  - An [int] is a [Z].
  - A call that may raise returns a [result]; a call that performs remote
    requests or sleeps also returns the trace of those effects.
  - Remote objects (drives, listings, queries) are data describing what the
    remote service answers; the connector only reads them. *)

From Stdlib Require Import String Ascii List ZArith Lia Bool Arith.
Import ListNotations.

Open Scope string_scope.
Open Scope list_scope.

(** ** Python strings *)

Module PyStr.

Definition byte (n : nat) : ascii := ascii_of_nat n.

Fixpoint bytes (l : list nat) : string :=
  match l with
  | [] => EmptyString
  | n :: l' => String (byte n) (bytes l')
  end.

Fixpoint codes (s : string) : list nat :=
  match s with
  | EmptyString => []
  | String c s' => nat_of_ascii c :: codes s'
  end.

Fixpoint drop (n : nat) (s : string) : string :=
  match n, s with
  | O, _ => s
  | S _, EmptyString => EmptyString
  | S n', String _ s' => drop n' s'
  end.

Fixpoint rev_append (s acc : string) : string :=
  match s with
  | EmptyString => acc
  | String c s' => rev_append s' (String c acc)
  end.

Definition rev (s : string) : string := rev_append s EmptyString.

(** [s.startswith(p)] *)
Definition startswith (s p : string) : bool := prefix p s.

(** [needle in hay] for two strings. *)
Fixpoint contains (needle hay : string) : bool :=
  prefix needle hay
  || match hay with
     | EmptyString => false
     | String _ hay' => contains needle hay'
     end.

(** [sep.join(parts)] *)
Definition join (sep : string) (parts : list string) : string :=
  String.concat sep parts.

(** [s.split(sep)] for a non-empty separator: the leftmost occurrences of
    [sep], not overlapping, cut [s]; empty pieces are kept.  [skip] counts
    the characters of a separator still to be passed over, [cur] holds the
    current piece in reverse. *)
Fixpoint split_go (sep : string) (skip : nat) (cur : string) (s : string)
  : list string :=
  match s with
  | EmptyString => [rev cur]
  | String c s' =>
      match skip with
      | S k => split_go sep k cur s'
      | O =>
          if prefix sep s
          then rev cur :: split_go sep (String.length sep - 1) EmptyString s'
          else split_go sep O (String c cur) s'
      end
  end.

Definition split (sep s : string) : list string :=
  split_go sep O EmptyString s.

(** The characters for which [str.isspace] holds, as UTF-8 byte sequences:
    U+0009..000D, U+001C..0020, U+0085, U+00A0, U+1680, U+2000..200A,
    U+2028, U+2029, U+202F, U+205F, U+3000. *)
Definition whitespace : list string :=
  map (fun n => bytes [n]) [9; 10; 11; 12; 13; 28; 29; 30; 31; 32]
  ++ [bytes [194; 133]; bytes [194; 160]; bytes [225; 154; 128]]
  ++ map (fun n => bytes [226; 128; n])
       [128; 129; 130; 131; 132; 133; 134; 135; 136; 137; 138; 168; 169; 175]
  ++ [bytes [226; 129; 159]; bytes [227; 128; 128]].

Fixpoint lstrip_with (ws : list string) (fuel : nat) (s : string) : string :=
  match fuel with
  | O => s
  | S fuel' =>
      match find (fun w => prefix w s) ws with
      | Some w => lstrip_with ws fuel' (drop (String.length w) s)
      | None => s
      end
  end.

Definition lstrip (s : string) : string :=
  lstrip_with whitespace (String.length s) s.

Definition rstrip (s : string) : string :=
  rev (lstrip_with (map rev whitespace) (String.length s) (rev s)).

(** [s.strip()] *)
Definition strip (s : string) : string := rstrip (lstrip s).

(** [x in parts] and [parts.index(x)] for a list of strings. *)
Definition mem (x : string) (parts : list string) : bool :=
  existsb (String.eqb x) parts.

Fixpoint index (x : string) (parts : list string) : option nat :=
  match parts with
  | [] => None
  | p :: parts' =>
      if String.eqb p x then Some O
      else option_map S (index x parts')
  end.

(** [int(s)]: surrounding whitespace, an optional sign, then decimal
    digits in which single underscores may separate digits.  [None] stands
    for [ValueError].  The digits read are the ASCII ones, the only decimal
    digits a header value holds. *)
Definition digit (c : ascii) : option Z :=
  let n := nat_of_ascii c in
  if (48 <=? n)%nat && (n <=? 57)%nat then Some (Z.of_nat (n - 48)) else None.

(** [after_digit] tells whether the previous character was a digit, which
    is where an underscore may stand. *)
Fixpoint digits_go (after_digit : bool) (acc : Z) (s : string) : option Z :=
  match s with
  | EmptyString => if after_digit then Some acc else None
  | String c s' =>
      match digit c with
      | Some d => digits_go true (10 * acc + d) s'
      | None =>
          if Ascii.eqb c "_" && after_digit
          then match s' with
               | EmptyString => None
               | String c' _ =>
                   match digit c' with
                   | Some _ => digits_go false acc s'
                   | None => None
                   end
               end
          else None
      end
  end.

Definition int (s : string) : option Z :=
  match strip s with
  | String "-" s' => option_map Z.opp (digits_go false 0 s')
  | String "+" s' => digits_go false 0 s'
  | s' => digits_go false 0 s'
  end.

(** [urllib.parse.unquote(s)] with its defaults (UTF-8, errors replaced).
    A string without [%] is returned as it is.  Otherwise every maximal run
    of ASCII characters has its [%XX] escapes turned into bytes, an escape
    that is not two hexadecimal digits staying as written, and the bytes are
    decoded as UTF-8, each ill-formed sequence giving U+FFFD; the characters
    between the runs are kept. *)
Definition hexval (n : nat) : option nat :=
  if (48 <=? n)%nat && (n <=? 57)%nat then Some (n - 48)%nat
  else if (65 <=? n)%nat && (n <=? 70)%nat then Some (n - 55)%nat
  else if (97 <=? n)%nat && (n <=? 102)%nat then Some (n - 87)%nat
  else None.

Fixpoint unquote_to_bytes (bs : list nat) : list nat :=
  match bs with
  | [] => []
  | b :: bs' =>
      if (b =? 37)%nat
      then match bs' with
           | h1 :: h2 :: rest =>
               match hexval h1, hexval h2 with
               | Some x, Some y => (16 * x + y)%nat :: unquote_to_bytes rest
               | _, _ => b :: unquote_to_bytes bs'
               end
           | _ => b :: unquote_to_bytes bs'
           end
      else b :: unquote_to_bytes bs'
  end.

Definition replacement : list nat := [239; 191; 189].

Definition continuation (b : nat) : bool := (128 <=? b)%nat && (b <=? 191)%nat.

Fixpoint utf8_replace (fuel : nat) (bs : list nat) : list nat :=
  match fuel with
  | O => []
  | S fuel' =>
      match bs with
      | [] => []
      | ch :: r =>
          if (ch <? 128)%nat then ch :: utf8_replace fuel' r
          else if (ch <? 194)%nat then replacement ++ utf8_replace fuel' r
          else if (ch <? 224)%nat then
            match r with
            | [] => replacement
            | ch2 :: r2 =>
                if continuation ch2 then ch :: ch2 :: utf8_replace fuel' r2
                else replacement ++ utf8_replace fuel' r
            end
          else if (ch <? 240)%nat then
            match r with
            | [] => replacement
            | ch2 :: r2 =>
                if negb (continuation ch2)
                   || (if (ch2 <? 160)%nat then (ch =? 224)%nat else (ch =? 237)%nat)
                then replacement ++ utf8_replace fuel' r
                else match r2 with
                     | [] => replacement
                     | ch3 :: r3 =>
                         if continuation ch3
                         then ch :: ch2 :: ch3 :: utf8_replace fuel' r3
                         else replacement ++ utf8_replace fuel' r2
                     end
            end
          else if (ch <? 245)%nat then
            match r with
            | [] => replacement
            | ch2 :: r2 =>
                if negb (continuation ch2)
                   || (if (ch2 <? 144)%nat then (ch =? 240)%nat else (ch =? 244)%nat)
                then replacement ++ utf8_replace fuel' r
                else match r2 with
                     | [] => replacement
                     | ch3 :: r3 =>
                         if negb (continuation ch3)
                         then replacement ++ utf8_replace fuel' r2
                         else match r3 with
                              | [] => replacement
                              | ch4 :: r4 =>
                                  if continuation ch4
                                  then ch :: ch2 :: ch3 :: ch4 :: utf8_replace fuel' r4
                                  else replacement ++ utf8_replace fuel' r3
                              end
                     end
            end
          else replacement ++ utf8_replace fuel' r
      end
  end.

Fixpoint span (p : nat -> bool) (bs : list nat) : list nat * list nat :=
  match bs with
  | [] => ([], [])
  | b :: bs' =>
      if p b then let (yes, rest) := span p bs' in (b :: yes, rest)
      else ([], bs)
  end.

Fixpoint unquote_runs (fuel : nat) (bs : list nat) : list nat :=
  match fuel with
  | O => []
  | S fuel' =>
      match bs with
      | [] => []
      | _ =>
          let (other, r1) := span (fun b => (128 <=? b)%nat) bs in
          let (run, r2) := span (fun b => (b <? 128)%nat) r1 in
          let decoded := unquote_to_bytes run in
          other ++ utf8_replace (List.length decoded) decoded
                ++ unquote_runs fuel' r2
      end
  end.

Definition unquote (s : string) : string :=
  if contains "%" s
  then bytes (unquote_runs (String.length s) (codes s))
  else s.

End PyStr.

(** ** Exceptions, results and effects *)

(** The transport's response attached to a failed request. *)
Record Response := {
  status_code : Z;
  headers : list (string * string)
}.

(** [headers.get(key)] *)
Fixpoint headers_get (key : string) (h : list (string * string)) : option string :=
  match h with
  | [] => None
  | (k, v) :: h' => if String.eqb k key then Some v else headers_get key h'
  end.

(** The exceptions the connector raises or meets.  The connector reads the
    [response] of a [ClientRequestException] through its truth value first
    ([e.response and ...]): it is [Some r] when the attribute holds a
    response that this test takes as true, and [None] when the exception
    carries no response, or one that the test takes as false.  [Exception_]
    is any other exception. *)
Inductive exn :=
| ClientRequestException (response : option Response) (message : string)
| ConnectorMissingCredentialError (connector_name : string)
| RuntimeError (message : string)
| ValueError (message : string)
| TypeError (message : string)
| AttributeError (message : string)
| IndexError (message : string)
| Exception_ (message : string).

Inductive result (A : Type) :=
| Return (a : A)
| Raise (e : exn).

Arguments Return {A} a.
Arguments Raise {A} e.

(** What a call does to the outside: a request sent, or a sleep. *)
Inductive event :=
| ExecuteQuery
| Sleep (seconds : Z).

(** A computation with a trace of events and a result. *)
Definition M (A : Type) : Type := list event * result A.

Definition ret {A} (a : A) : M A := ([], Return a).

Definition raise {A} (e : exn) : M A := ([], Raise e).

Definition bind {A B} (m : M A) (k : A -> M B) : M B :=
  match m with
  | (t, Return a) => let (t', r) := k a in (t ++ t', r)
  | (t, Raise e) => (t, Raise e)
  end.

Definition emit (ev : event) : M unit := ([ev], Return tt).

Notation "x <- m ;; k" := (bind m (fun x => k))
  (at level 61, m at next level, right associativity).
Notation "m ;;; k" := (bind m (fun _ => k))
  (at level 61, right associativity).

(** [time.sleep(seconds)] refuses a negative length. *)
Definition time_sleep (seconds : Z) : M unit :=
  if (seconds <? 0)%Z
  then raise (ValueError "sleep length must be non-negative")
  else emit (Sleep seconds).

(** A query object: what its [execute_query()] answers at each successive
    call.  [Return None] is a call that returns [None]. *)
Definition query (A : Type) : Type := nat -> result (option A).

(** ** [_sleep_and_retry] *)

(** [status_code in [429, 503]] *)
Definition rate_limit_status (r : Response) : bool :=
  existsb (Z.eqb r.(status_code)) [429; 503]%Z.

(** [min(30, (2**attempt) * 5)] *)
Definition backoff (attempt : nat) : Z := Z.min 30 (2 ^ Z.of_nat attempt * 5).

(** The sleep time chosen for a rate-limited response: the header
    [Retry-After] read as an integer when it is there and not empty, the
    exponential backoff otherwise. *)
Definition sleep_time_of (r : Response) (attempt : nat) : M Z :=
  match headers_get "Retry-After" r.(headers) with
  | Some retry_after =>
      if String.eqb retry_after ""
      then ret (backoff attempt)
      else match PyStr.int retry_after with
           | Some n => ret n
           | None => raise (ValueError "invalid literal for int() with base 10")
           end
  | None => ret (backoff attempt)
  end.

(** The body of [for attempt in range(max_retries + 1)], the attempts still
    to be made being [attempts].  A loop that runs out returns [None]. *)
Fixpoint retry_loop {A} (query_obj : query A) (max_retries : Z)
  (attempts : list nat) : M (option A) :=
  match attempts with
  | [] => ret None
  | attempt :: attempts' =>
      emit ExecuteQuery ;;;
      match query_obj attempt with
      | Return v => ret v
      | Raise (ClientRequestException (Some r) message as e) =>
          if rate_limit_status r && (Z.of_nat attempt <? max_retries)%Z
          then sleep_time <- sleep_time_of r attempt ;;
               time_sleep sleep_time ;;;
               retry_loop query_obj max_retries attempts'
          else raise e
      | Raise e => raise e
      end
  end.

Definition _sleep_and_retry {A} (query_obj : query A) (method_name : string)
  (max_retries : Z) : M (option A) :=
  retry_loop query_obj max_retries (seq 0 (Z.to_nat (max_retries + 1))).

(** The default of [max_retries]. *)
Definition default_max_retries : Z := 3.

(** ** Documents and remote items *)

Inductive DocumentSource := SHAREPOINT.

Record TextSection := {
  link : string;
  text : string
}.

Record BasicExpertInfo := {
  display_name : string;
  email : string
}.

(** [doc_updated_at] is an instant, in microseconds since the epoch. *)
Record Document := {
  id : string;
  sections : list TextSection;
  source : DocumentSource;
  semantic_identifier : string;
  doc_updated_at : Z;
  primary_owners : list BasicExpertInfo;
  metadata : list (string * string)
}.

(** How [int] refuses a value: with a [ValueError] or a [TypeError]. *)
Inductive int_refusal :=
| InvalidLiteral
| NotANumber.

(** The value of the attribute [size] of a drive item, as
    [getattr(driveitem, "size", None)] reads it: nothing, an integer, or a
    value that [int] refuses. *)
Inductive size_attr :=
| SizeNone
| SizeInt (n : Z)
| SizeUnreadable (refusal : int_refusal).

(** The downloaded content: [content.value] are the bytes of the file. *)
Record Content := {
  value : string
}.

(** A drive item.  [last_modified_datetime] is its naive date, in
    microseconds; [parent_reference_path] is [parent_reference.path];
    [get_content] is the query that downloads the file. *)
Record DriveItem := {
  item_id : string;
  name : string;
  size : size_attr;
  web_url : string;
  last_modified_datetime : Z;
  last_modified_by : BasicExpertInfo;
  parent_reference_path : string;
  get_content : query Content
}.

(** A drive of a site.  [get_files parts] is the answer of the recursive
    listing started from the folder reached from the root of the drive by
    the successive [get_by_path] of [parts]. *)
Record Drive := {
  drive_name_of : string;
  get_files : list string -> result (list DriveItem)
}.

Record Site := {
  site_web_url : string
}.

(** A page of the listing of all sites, with what fetching the next page
    gives when there is one. *)
Inductive SitesWithRoot :=
| LastPage (current_page : list Site)
| NextPage (current_page : list Site) (next : SitesWithRoot)
| NextFails (current_page : list Site) (e : exn).

Definition current_page_of (sites : SitesWithRoot) : list Site :=
  match sites with
  | LastPage p | NextPage p _ | NextFails p _ => p
  end.

(** The truth value of the collection: it is false when it holds no site. *)
Definition sites_bool (sites : SitesWithRoot) : bool :=
  match current_page_of sites with
  | [] => false
  | _ :: _ => true
  end.

(** The graph client: the drives listed for the site of a URL, and the
    first page of the listing of all sites. *)
Record GraphClient := {
  site_drives : string -> result (list Drive);
  get_all_sites : result SitesWithRoot
}.

Record SiteDescriptor := {
  url : string;
  drive_name : option string;
  folder_path : option string
}.

Record SharepointConnector := {
  batch_size : Z;
  _graph_client : option GraphClient;
  site_descriptors : list SiteDescriptor
}.

(** [int(size_value)] *)
Definition int_of_size (size_value : size_attr) : result Z :=
  match size_value with
  | SizeInt n => Return n
  | SizeUnreadable InvalidLiteral =>
      Raise (ValueError "invalid literal for int() with base 10")
  | SizeUnreadable NotANumber | SizeNone =>
      Raise (TypeError "int() argument must be a string or a number")
  end.

(** The truth value of an optional string: [None] and [""] are false. *)
Definition truthy (o : option string) : bool :=
  match o with
  | Some s => negb (String.eqb s "")
  | None => false
  end.

(** ** The connector *)

Section Connector.

(** The configured size threshold, the text extractor, and the text of a
    [ConnectorMissingCredentialError] for a connector name: they are declared
    outside the connector's file. *)
Variable SHAREPOINT_CONNECTOR_SIZE_THRESHOLD : Z.
Variable extract_file_text : string -> string -> string.
Variable missing_credential_text : string -> string.

(** [str(e)] *)
Definition str (e : exn) : string :=
  match e with
  | ConnectorMissingCredentialError connector_name =>
      missing_credential_text connector_name
  | ClientRequestException _ message
  | RuntimeError message
  | ValueError message
  | TypeError message
  | AttributeError message
  | IndexError message
  | Exception_ message => message
  end.

(** *** [_convert_driveitem_to_document] *)

(** The statements under [try]: [Return true] when the size is read and
    exceeds the threshold, so that the item is skipped. *)
Definition size_check (driveitem : DriveItem) : result bool :=
  match driveitem.(size) with
  | SizeNone => Return false
  | size_value =>
      match int_of_size size_value with
      | Return file_size =>
          Return (file_size >? SHAREPOINT_CONNECTOR_SIZE_THRESHOLD)%Z
      | Raise e => Raise e
      end
  end.

(** [except (ValueError, TypeError, AttributeError)] *)
Definition size_error_caught (e : exn) : bool :=
  match e with
  | ValueError _ | TypeError _ | AttributeError _ => true
  | _ => false
  end.

(** [d.replace(tzinfo=timezone.utc)]: the naive date read as UTC. *)
Definition replace_tzinfo_utc (naive : Z) : Z := naive.

Definition build_document (driveitem : DriveItem) (drive_name : string)
  (content : Content) : Document :=
  let file_text := extract_file_text content.(value) driveitem.(name) in
  {| id := driveitem.(item_id);
     sections := [ {| link := driveitem.(web_url); text := file_text |} ];
     source := SHAREPOINT;
     semantic_identifier := driveitem.(name);
     doc_updated_at := replace_tzinfo_utc driveitem.(last_modified_datetime);
     primary_owners :=
       [ {| display_name := driveitem.(last_modified_by).(display_name);
            email := driveitem.(last_modified_by).(email) |} ];
     metadata := [("drive", drive_name)] |}.

(** The download and the conversion, after the size check let the item
    through. *)
Definition download_and_convert (driveitem : DriveItem) (drive_name : string)
  : M (option Document) :=
  content <- _sleep_and_retry driveitem.(get_content) "get_content"
               default_max_retries ;;
  match content with
  | None => ret None
  | Some c => ret (Some (build_document driveitem drive_name c))
  end.

Definition _convert_driveitem_to_document (driveitem : DriveItem)
  (drive_name : string) : M (option Document) :=
  match size_check driveitem with
  | Return true => ret None
  | Return false => download_and_convert driveitem drive_name
  | Raise e =>
      if size_error_caught e
      then download_and_convert driveitem drive_name
      else raise e
  end.

(** *** [_extract_site_and_drive_info] *)

(** The body of the loop for one URL: the descriptors it appends. *)
Definition extract_one (url : string) : list SiteDescriptor :=
  let parts := PyStr.split "/" (PyStr.strip url) in
  if PyStr.mem "sites" parts
  then match PyStr.index "sites" parts with
       | Some sites_index =>
           let site_url := PyStr.join "/" (firstn (sites_index + 2) parts) in
           let remaining_parts := skipn (sites_index + 2) parts in
           match remaining_parts with
           | first :: rest =>
               [ {| url := site_url;
                    drive_name := Some (PyStr.unquote first);
                    folder_path :=
                      if (1 <? List.length remaining_parts)%nat
                      then Some (PyStr.join "/" (map PyStr.unquote rest))
                      else None |} ]
           | [] =>
               [ {| url := site_url; drive_name := None; folder_path := None |} ]
           end
       | None => []
       end
  else [].

Definition _extract_site_and_drive_info (site_urls : list string)
  : list SiteDescriptor :=
  flat_map extract_one site_urls.

(** [SharepointConnector(batch_size, sites)] *)
Definition init (batch_size : Z) (sites : list string) : SharepointConnector :=
  {| batch_size := batch_size;
     _graph_client := None;
     site_descriptors := _extract_site_and_drive_info sites |}.

(** [load_credentials] stores a client built from the credentials. *)
Definition load_credentials (self : SharepointConnector) (client : GraphClient)
  : SharepointConnector :=
  {| batch_size := self.(batch_size);
     _graph_client := Some client;
     site_descriptors := self.(site_descriptors) |}.

(** The property [graph_client]. *)
Definition graph_client (self : SharepointConnector) : result GraphClient :=
  match self.(_graph_client) with
  | None => Raise (ConnectorMissingCredentialError "Sharepoint")
  | Some client => Return client
  end.

(** *** [_fetch_driveitems] *)

(** The condition of the comprehension that filters the drives. *)
Definition drive_matches (requested : string) (drive : Drive) : bool :=
  String.eqb drive.(drive_name_of) requested
  || (String.eqb drive.(drive_name_of) "Documents"
      && String.eqb requested "Shared Documents").

(** The library name reported for a drive. *)
Definition library_name (drive : Drive) : string :=
  if String.eqb drive.(drive_name_of) "Documents"
  then "Shared Documents"
  else drive.(drive_name_of).

(** The condition of the comprehension that filters the items by folder:
    some piece of the parent path after [root:/], cut at [/], is the folder
    path or starts with it followed by [/].  A path without [root:/] has no
    piece of index 1. *)
Definition in_folder (folder : string) (item : DriveItem) : result bool :=
  match nth_error (PyStr.split "root:/" item.(parent_reference_path)) 1 with
  | None => Raise (IndexError "list index out of range")
  | Some below_root =>
      Return (existsb
                (fun path_part =>
                   String.eqb path_part folder
                   || PyStr.startswith path_part (folder ++ "/")%string)
                (PyStr.split "/" below_root))
  end.

(** A comprehension whose condition may raise. *)
Fixpoint filter_result {A} (cond : A -> result bool) (l : list A)
  : result (list A) :=
  match l with
  | [] => Return []
  | x :: l' =>
      match cond x with
      | Raise e => Raise e
      | Return keep =>
          match filter_result cond l' with
          | Raise e => Raise e
          | Return kept => Return (if keep then x :: kept else kept)
          end
      end
  end.

Definition filter_by_folder (folder_path : option string)
  (driveitems : list DriveItem) : result (list DriveItem) :=
  match folder_path with
  | Some folder =>
      if truthy folder_path
      then filter_result (in_folder folder) driveitems
      else Return driveitems
  | None => Return driveitems
  end.

(** The condition of the comprehension that filters the items by time.
    The bounds are instants, in microseconds since the epoch, as
    [poll_source] builds them from its two timestamps. *)
Definition in_window (start end_ : Z) (item : DriveItem) : bool :=
  let modified := replace_tzinfo_utc item.(last_modified_datetime) in
  (start <=? modified)%Z && (modified <=? end_)%Z.

Definition filter_by_window (start end_ : option Z)
  (driveitems : list DriveItem) : list DriveItem :=
  match start, end_ with
  | Some s, Some e => filter (in_window s e) driveitems
  | _, _ => driveitems
  end.

(** The folder the listing starts from: the parts of the folder path. *)
Definition folder_parts (folder_path : option string) : list string :=
  match folder_path with
  | Some folder => if truthy folder_path then PyStr.split "/" folder else []
  | None => []
  end.

(** The statements under the inner [try], for one drive. *)
Definition process_drive (site_descriptor : SiteDescriptor)
  (start end_ : option Z) (drive : Drive) : result (list (DriveItem * string)) :=
  match drive.(get_files) (folder_parts site_descriptor.(folder_path)) with
  | Raise e => Raise e
  | Return driveitems =>
      let drive_name := library_name drive in
      match filter_by_folder site_descriptor.(folder_path) driveitems with
      | Raise e => Raise e
      | Return driveitems =>
          let driveitems := filter_by_window start end_ driveitems in
          Return (map (fun item => (item, drive_name)) driveitems)
      end
  end.

(** The loop over the drives: a drive that fails adds nothing. *)
Definition process_drives (site_descriptor : SiteDescriptor)
  (start end_ : option Z) (drives : list Drive) : list (DriveItem * string) :=
  flat_map
    (fun drive =>
       match process_drive site_descriptor start end_ drive with
       | Return pairs => pairs
       | Raise _ => []
       end)
    drives.

(** The filter of the drives by the requested name. *)
Definition filter_drives (requested : option string) (drives : list Drive)
  : list Drive :=
  match requested with
  | Some name => if truthy requested then filter (drive_matches name) drives else drives
  | None => drives
  end.

(** The statements under the outer [try]. *)
Definition fetch_driveitems_body (self : SharepointConnector)
  (site_descriptor : SiteDescriptor) (start end_ : option Z)
  : result (list (DriveItem * string)) :=
  match graph_client self with
  | Raise e => Raise e
  | Return client =>
      match client.(site_drives) site_descriptor.(url) with
      | Raise e => Raise e
      | Return drives =>
          let drives := filter_drives site_descriptor.(drive_name) drives in
          match truthy site_descriptor.(drive_name), drives with
          | true, [] => Return []
          | _, _ => Return (process_drives site_descriptor start end_ drives)
          end
      end
  end.

(** The errors the outer handler raises again. *)
Definition fatal_site_error (err_str : string) : bool :=
  PyStr.contains "403 Client Error" err_str
  || PyStr.contains "404 Client Error" err_str
  || PyStr.contains "invalid_client" err_str.

Definition _fetch_driveitems (self : SharepointConnector)
  (site_descriptor : SiteDescriptor) (start end_ : option Z)
  : result (list (DriveItem * string)) :=
  match fetch_driveitems_body self site_descriptor start end_ with
  | Return final_driveitems => Return final_driveitems
  | Raise e =>
      let err_str := str e in
      if fatal_site_error err_str then Raise e else Return []
  end.

(** *** [_handle_paginated_sites] and [_fetch_sites] *)

Fixpoint _handle_paginated_sites (sites : SitesWithRoot) : result (list Site) :=
  if sites_bool sites
  then match sites with
       | LastPage page => Return page
       | NextPage page next =>
           match _handle_paginated_sites next with
           | Return more => Return (page ++ more)
           | Raise e => Raise e
           end
       | NextFails page e => Raise e
       end
  else Return [].

Definition _fetch_sites (self : SharepointConnector) : result (list SiteDescriptor) :=
  match graph_client self with
  | Raise e => Raise e
  | Return client =>
      match client.(get_all_sites) with
      | Raise e => Raise e
      | Return sites =>
          if negb (sites_bool sites)
          then Raise (RuntimeError "No sites found in the tenant")
          else match _handle_paginated_sites sites with
               | Raise e => Raise e
               | Return all =>
                   Return (map (fun site =>
                                  {| url := site.(site_web_url);
                                     drive_name := None;
                                     folder_path := None |}) all)
               end
      end
  end.

(** *** [_fetch_from_sharepoint] *)

(** What a run of the generator gives: the batches yielded, in order, and
    the exception that ended it, if one did. *)
Record run := {
  yielded : list (list Document);
  failure : option exn
}.

Definition yield (batch : list Document) (rest : run) : run :=
  {| yielded := batch :: rest.(yielded); failure := rest.(failure) |}.

(** The inner loop, over the items of one site, then [continue_] with the
    buffer it leaves. *)
Fixpoint items_loop (batch_size : Z) (driveitems : list (DriveItem * string))
  (doc_batch : list Document) (continue_ : list Document -> run) : run :=
  match driveitems with
  | [] => continue_ doc_batch
  | (driveitem, drive_name) :: driveitems' =>
      match snd (_convert_driveitem_to_document driveitem drive_name) with
      | Raise e => {| yielded := []; failure := Some e |}
      | Return doc =>
          let doc_batch :=
            match doc with
            | Some d => doc_batch ++ [d]
            | None => doc_batch
            end in
          if (Z.of_nat (List.length doc_batch) >=? batch_size)%Z
          then yield doc_batch (items_loop batch_size driveitems' [] continue_)
          else items_loop batch_size driveitems' doc_batch continue_
      end
  end.

(** The outer loop, over the site descriptors, and the last [yield]. *)
Fixpoint sites_loop (self : SharepointConnector) (start end_ : option Z)
  (descriptors : list SiteDescriptor) (doc_batch : list Document) : run :=
  match descriptors with
  | [] => {| yielded := [doc_batch]; failure := None |}
  | site_descriptor :: descriptors' =>
      match _fetch_driveitems self site_descriptor start end_ with
      | Raise e => {| yielded := []; failure := Some e |}
      | Return driveitems =>
          items_loop self.(batch_size) driveitems doc_batch
            (sites_loop self start end_ descriptors')
      end
  end.

Definition _fetch_from_sharepoint (self : SharepointConnector)
  (start end_ : option Z) : run :=
  match
    match self.(site_descriptors) with
    | [] => _fetch_sites self
    | configured => Return configured
    end
  with
  | Raise e => {| yielded := []; failure := Some e |}
  | Return descriptors => sites_loop self start end_ descriptors []
  end.

Definition load_from_state (self : SharepointConnector) : run :=
  _fetch_from_sharepoint self None None.

End Connector.

(** ** The properties, in the words of the specification *)

(** *** Retry policy *)

(** The retry-after duration a response supplies: the header, unless it is
    missing or empty. *)
Definition supplied_retry_after (r : Response) : option string :=
  match headers_get "Retry-After" r.(headers) with
  | Some s => if String.eqb s "" then None else Some s
  | None => None
  end.

(** [d] is the sleep the backoff policy prescribes for response [r] at the
    0-indexed [attempt]. *)
Definition policy_sleep (r : Response) (attempt : nat) (d : Z) : Prop :=
  match supplied_retry_after r with
  | Some s => PyStr.int s = Some d /\ (0 <= d)%Z
  | None => d = Z.min 30 (2 ^ Z.of_nat attempt * 5)
  end.

(** The [call]-th answer is a failure with status 429 or 503, for which the
    policy prescribes the sleep [d]. *)
Definition rate_limited_at {A} (query_obj : query A) (call : nat) (d : Z) : Prop :=
  exists r message,
    query_obj call = Raise (ClientRequestException (Some r) message)
    /\ (r.(status_code) = 429%Z \/ r.(status_code) = 503%Z)
    /\ policy_sleep r call d.

(** A failure that is not a rate-limit or service-unavailable response. *)
Definition not_rate_limit (e : exn) : Prop :=
  match e with
  | ClientRequestException (Some r) _ =>
      r.(status_code) <> 429%Z /\ r.(status_code) <> 503%Z
  | _ => True
  end.

(** The answer of a query is a success or a failure that is not a rate
    limit. *)
Definition settles {A} (answer : result (option A)) : Prop :=
  match answer with
  | Return _ => True
  | Raise e => not_rate_limit e
  end.

(** The trace of [k] failed attempts, each followed by its sleep, and of
    the attempt that ends the call. *)
Definition retry_trace (d : nat -> Z) (k : nat) : list event :=
  flat_map (fun i => [ExecuteQuery; Sleep (d i)]) (seq 0 k) ++ [ExecuteQuery].

(** *** Batching *)

(** The batches of the documents [docs], starting from [buffer]: the buffer
    takes one document at a time, is emitted when it reaches [batchSize],
    and what remains at the end is emitted. *)
Fixpoint accumulate (batchSize : Z) (buffer docs : list Document)
  : list (list Document) :=
  match docs with
  | [] => [buffer]
  | d :: docs' =>
      let buffer := buffer ++ [d] in
      if (Z.of_nat (List.length buffer) =? batchSize)%Z
      then buffer :: accumulate batchSize [] docs'
      else accumulate batchSize buffer docs'
  end.

Definition spec_batches (batchSize : Z) (docs : list Document)
  : list (list Document) :=
  accumulate batchSize [] docs.

(** The documents converted from the items of a traversal, in order: an
    item that is skipped gives none. *)
Definition converted_of_items (threshold : Z)
  (extract_file_text : string -> string -> string)
  (driveitems : list (DriveItem * string)) : list Document :=
  flat_map
    (fun pair =>
       match snd (_convert_driveitem_to_document threshold extract_file_text
                    (fst pair) (snd pair)) with
       | Return (Some doc) => [doc]
       | _ => []
       end)
    driveitems.

(** The documents converted from the targets of a run, in order. *)
Definition converted_documents (threshold : Z)
  (extract_file_text : string -> string -> string)
  (missing_credential_text : string -> string)
  (self : SharepointConnector) (start end_ : option Z)
  (descriptors : list SiteDescriptor) : list Document :=
  flat_map
    (fun site_descriptor =>
       match _fetch_driveitems missing_credential_text self site_descriptor
               start end_ with
       | Return driveitems =>
           converted_of_items threshold extract_file_text driveitems
       | Raise _ => []
       end)
    descriptors.

(** The targets of a run: the configured ones, or all the sites. *)
Definition targets_of_run (self : SharepointConnector) : list SiteDescriptor :=
  match self.(site_descriptors) with
  | [] =>
      match _fetch_sites self with
      | Return descriptors => descriptors
      | Raise _ => []
      end
  | configured => configured
  end.

(** *** Scope resolution *)

(** The segments up to and including the one after the first [sites], and
    the segments that remain; [None] when no segment is [sites]. *)
Fixpoint locate_sites (before segments : list string)
  : option (list string * list string) :=
  match segments with
  | [] => None
  | segment :: after =>
      if String.eqb segment "sites"
      then match after with
           | [] => Some (before ++ [segment], [])
           | site_name :: remaining =>
               Some (before ++ [segment; site_name], remaining)
           end
      else locate_sites (before ++ [segment]) after
  end.

(** The target of the segments of a scope string. *)
Definition spec_target (segments : list string) : option SiteDescriptor :=
  match locate_sites [] segments with
  | None => None
  | Some (root, remaining) =>
      Some {| url := PyStr.join "/" root;
              drive_name :=
                match remaining with
                | [] => None
                | first :: _ => Some (PyStr.unquote first)
                end;
              folder_path :=
                match remaining with
                | _ :: ((_ :: _) as tail) =>
                    Some (PyStr.join "/" (map PyStr.unquote tail))
                | _ => None
                end |}
  end.

Definition targets_of (resolved : list (option SiteDescriptor))
  : list SiteDescriptor :=
  flat_map (fun o => match o with Some t => [t] | None => [] end) resolved.

(** *** Conversion *)

(** The size of an item when it is known. *)
Definition known_size (driveitem : DriveItem) : option Z :=
  match driveitem.(size) with
  | SizeInt n => Some n
  | SizeNone | SizeUnreadable _ => None
  end.

(** ** Inputs of the examples *)

Definition example_content : Content := {| value := "quarterly figures" |}.

(** A download that succeeds at once. *)
Definition content_query : query Content :=
  fun _ => Return (Some example_content).

Definition example_item (name parent_path : string) (size : size_attr)
  (modified : Z) : DriveItem :=
  {| item_id := name;
     name := name;
     size := size;
     web_url := ("https://host/sites/A/" ++ name)%string;
     last_modified_datetime := modified;
     last_modified_by := {| display_name := "Ada"; email := "ada@host" |};
     parent_reference_path := parent_path;
     get_content := content_query |}.

(** A file in the folder [test/nested] of a drive. *)
Definition nested_item : DriveItem :=
  example_item "report.docx" "/drives/b1/root:/test/nested" (SizeInt 10) 100.

Definition five_items : list DriveItem :=
  map (fun name => example_item name "/drives/b1/root:/test" SizeNone 100)
    ["a"; "b"; "c"; "d"; "e"].

(** A drive whose listing does not depend on the folder. *)
Definition example_drive (name : string) (listing : list DriveItem) : Drive :=
  {| drive_name_of := name; get_files := fun _ => Return listing |}.

Definition documents_drive : Drive := example_drive "Documents" [nested_item].

Definition archive_drive : Drive := example_drive "Archive" five_items.

(** A client whose every site has the two drives. *)
Definition example_client : GraphClient :=
  {| site_drives := fun _ => Return [documents_drive; archive_drive];
     get_all_sites :=
       Return (LastPage [ {| site_web_url := "https://host/sites/A" |} ]) |}.

Definition example_connector (batch_size : Z) (sites : list string)
  : SharepointConnector :=
  load_credentials (init batch_size sites) example_client.

(** The text of the missing-credential exception. *)
Definition example_missing_credential_text (connector_name : string) : string :=
  (connector_name
   ++ " connector missing credentials, was load_credentials called?")%string.

Definition example_extract_file_text (file file_name : string) : string := file.

Definition rate_limit_failure (status : Z) (headers : list (string * string))
  : result (option Content) :=
  Raise (ClientRequestException
           (Some {| status_code := status; headers := headers |})
           "rate limited").

(** A 429 with [Retry-After: 7], then a 503 without it, then the content. *)
Definition throttled_query : query Content :=
  fun call =>
    match call with
    | 0 => rate_limit_failure 429 [("Retry-After", "7")]
    | 1 => rate_limit_failure 503 []
    | _ => Return (Some example_content)
    end.

Definition throttled_sleeps : nat -> Z :=
  fun call => match call with 0 => 7%Z | _ => 10%Z end.

(** A 429 at every call. *)
Definition always_throttled : query Content :=
  fun _ => rate_limit_failure 429 [].

(** A failure without a response at every call. *)
Definition disconnected_query : query Content :=
  fun _ => Raise (ClientRequestException None "connection aborted").

(** ** Measures of traces, listings and runs *)

(** The number of requests of a trace. *)
Fixpoint calls (t : list event) : nat :=
  match t with
  | [] => 0
  | ExecuteQuery :: t' => S (calls t')
  | Sleep _ :: t' => calls t'
  end.

(** The sleeps of a trace, in order. *)
Fixpoint sleeps (t : list event) : list Z :=
  match t with
  | [] => []
  | ExecuteQuery :: t' => sleeps t'
  | Sleep seconds :: t' => seconds :: sleeps t'
  end.

(** A string of ASCII characters. *)
Definition ascii_only (s : string) : bool :=
  forallb (fun n => (n <? 128)%nat) (PyStr.codes s).

(** The pages of a listing of sites, in the order they are fetched, and the
    failure that ends the listing, if one does. *)
Fixpoint pages_of (sites : SitesWithRoot) : list (list Site) :=
  match sites with
  | LastPage page => [page]
  | NextPage page next => page :: pages_of next
  | NextFails page _ => [page]
  end.

Fixpoint next_failure (sites : SitesWithRoot) : option exn :=
  match sites with
  | LastPage _ => None
  | NextPage _ next => next_failure next
  | NextFails _ e => Some e
  end.

(** The items the targets of a run give, in order. *)
Definition traversed_items (missing_credential_text : string -> string)
  (self : SharepointConnector) (start end_ : option Z)
  (descriptors : list SiteDescriptor) : list (DriveItem * string) :=
  flat_map
    (fun site_descriptor =>
       match _fetch_driveitems missing_credential_text self site_descriptor
               start end_ with
       | Return driveitems => driveitems
       | Raise _ => []
       end)
    descriptors.

(** The pairs a drive lists from its root, under its library name; none
    when the listing fails. *)
Definition listed_pairs (drive : Drive) : list (DriveItem * string) :=
  match drive.(get_files) [] with
  | Return driveitems =>
      map (fun item => (item, library_name drive)) driveitems
  | Raise _ => []
  end.

(** The pieces of the parent path of an item below [root:/]. *)
Definition path_pieces (item : DriveItem) : list string :=
  match nth_error (PyStr.split "root:/" item.(parent_reference_path)) 1 with
  | Some below_root => PyStr.split "/" below_root
  | None => []
  end.

(** * The store of the enterprise settings

    This part follows [backend/ee/onyx/server/enterprise_settings/store.py].
    The functions of this file read and write a key-value store and a file
    store: the key-value store is passed and returned, and the files saved
    are returned as the list of the calls of [save_file]. *)

Module EnterpriseStore.

Inductive store_exn :=
| KvKeyNotFoundError
| ValueError (message : string)
| TypeError (message : string)
| ValidationError (message : string)
| HTTPException (status_code : Z) (detail : string)
| OSError (message : string).

Inductive outcome (A : Type) :=
| Returns (a : A)
| Raises (e : store_exn).

Arguments Returns {A} a.
Arguments Raises {A} e.

(** *** Strings *)

(** [s.endswith(suffix)] *)
Definition endswith (s suffix : string) : bool :=
  prefix (PyStr.rev suffix) (PyStr.rev s).

(** [s.lower()] on the ASCII letters.  The other characters that
    [str.lower] changes give none of the characters of [.png], [.jpg] and
    [.jpeg], so the tests of [guess_file_type] read the same. *)
Definition lower_char (c : ascii) : ascii :=
  let n := nat_of_ascii c in
  if (65 <=? n)%nat && (n <=? 90)%nat then ascii_of_nat (n + 32) else c.

Fixpoint lower (s : string) : string :=
  match s with
  | EmptyString => EmptyString
  | String c s' => String (lower_char c) (lower s')
  end.

(** *** File types *)

Definition valid_extensions : list string := [".png"; ".jpg"; ".jpeg"].

Definition is_valid_file_type (filename : string) : bool :=
  existsb (endswith filename) valid_extensions.

Definition guess_file_type (filename : string) : string :=
  if endswith (lower filename) ".png" then "image/png"
  else if endswith (lower filename) ".jpg" || endswith (lower filename) ".jpeg"
       then "image/jpeg"
       else "application/octet-stream".

(** *** The logo *)

Definition _LOGO_FILENAME : string := "__logo__".
Definition _LOGOTYPE_FILENAME : string := "__logotype__".

Definition get_logo_filename : string := _LOGO_FILENAME.
Definition get_logotype_filename : string := _LOGOTYPE_FILENAME.

Inductive FileOrigin := OTHER.

(** An uploaded file: its name and content type, which may be missing,
    and its content, [file_] for the attribute [file]. *)
Record UploadFile := {
  filename : option string;
  content_type : option string;
  file_ : string
}.

(** What a local path names: nothing that is a file, a file that cannot be
    read, or a file with its content. *)
Inductive path_state :=
| NotAFile
| Unreadable (message : string)
| RegularFile (content : string).

(** [os.path.isfile] *)
Definition isfile (fs : string -> path_state) (path : string) : bool :=
  match fs path with
  | NotAFile => false
  | Unreadable _ | RegularFile _ => true
  end.

(** The argument [file] of [upload_logo]: a path or an uploaded file. *)
Inductive logo_file :=
| Path (path : string)
| Upload (upload : UploadFile).

(** The arguments of a call of [save_file]. *)
Record SavedFile := {
  content : string;
  display_name : string;
  file_origin : FileOrigin;
  file_type : string;
  file_id : string
}.

Definition invalid_file_type : string :=
  "Invalid file type- only .png, .jpg, and .jpeg files are allowed".

(** [file.content_type or "image/jpeg"] *)
Definition content_type_or_default (content_type : option string) : string :=
  match content_type with
  | Some t => if String.eqb t "" then "image/jpeg" else t
  | None => "image/jpeg"
  end.

(** [upload_logo]: the calls of [save_file] it makes, and what it returns. *)
Definition upload_logo (fs : string -> path_state) (file : logo_file)
  (is_logotype : bool) : list SavedFile * outcome bool :=
  let file_id := if is_logotype then _LOGOTYPE_FILENAME else _LOGO_FILENAME in
  match file with
  | Path path =>
      if negb (isfile fs path) || negb (is_valid_file_type path)
      then ([], Returns false)
      else match fs path with
           | RegularFile file_content =>
               ([ {| content := file_content;
                     display_name := path;
                     file_origin := OTHER;
                     file_type := guess_file_type path;
                     file_id := file_id |} ],
                Returns true)
           | Unreadable message => ([], Raises (OSError message))
           | NotAFile => ([], Raises (OSError "No such file or directory"))
           end
  | Upload upload =>
      match upload.(filename) with
      | Some name =>
          if String.eqb name "" || negb (is_valid_file_type name)
          then ([], Raises (HTTPException 400 invalid_file_type))
          else ([ {| content := upload.(file_);
                     display_name := name;
                     file_origin := OTHER;
                     file_type := content_type_or_default upload.(content_type);
                     file_id := file_id |} ],
                Returns true)
      | None => ([], Raises (HTTPException 400 invalid_file_type))
      end
  end.

(** *** The key-value store *)

(** The settings: the application name, which the functions read, and the
    other fields. *)
Record EnterpriseSettings (Fields : Type) := {
  application_name : option string;
  other_fields : Fields
}.

Arguments application_name {Fields} e.
Arguments other_fields {Fields} e.

(** A value of the store: a string, or a dictionary. *)
Inductive kv_value (Dict : Type) :=
| KvStr (s : string)
| KvDict (d : Dict).

Arguments KvStr {Dict} s.
Arguments KvDict {Dict} d.

(** Modelled from the spec: the key-value store of
    [onyx.key_value_store], "a simple get/put store": [kv_load] gives the
    value last stored under a key and raises [KvKeyNotFoundError] when
    there is none, [kv_put] stores a value under a key. *)
Definition kv_store (Dict : Type) : Type := list (string * kv_value Dict).

Fixpoint kv_load {Dict} (key : string) (kv : kv_store Dict)
  : outcome (kv_value Dict) :=
  match kv with
  | [] => Raises KvKeyNotFoundError
  | (k, v) :: kv' => if String.eqb k key then Returns v else kv_load key kv'
  end.

Definition kv_put {Dict} (key : string) (v : kv_value Dict) (kv : kv_store Dict)
  : kv_store Dict :=
  (key, v) :: kv.

Record AnalyticsScriptUpload := {
  script : string;
  secret_key : string
}.

Section Store.

(** The other fields of the settings and the dictionaries [model_dump]
    gives; [model_dump], the validation of a stored value by the
    constructor of the settings, and the default settings; the keys
    of the store, the default application name, and the secret key read
    from the environment: they are declared outside this file. *)
Variable Fields : Type.
Variable Dict : Type.
Variable model_dump : EnterpriseSettings Fields -> Dict.
Variable model_validate : kv_value Dict -> outcome (EnterpriseSettings Fields).
Variable default_settings : EnterpriseSettings Fields.
Variable KV_ENTERPRISE_SETTINGS_KEY : string.
Variable KV_CUSTOM_ANALYTICS_SCRIPT_KEY : string.
Variable ONYX_DEFAULT_APPLICATION_NAME : string.
Variable _CUSTOM_ANALYTICS_SECRET_KEY : option string.

(** The statements under [try]: the stored value, validated. *)
Definition load_stored_settings (kv : kv_store Dict)
  : outcome (EnterpriseSettings Fields) :=
  match kv_load KV_ENTERPRISE_SETTINGS_KEY kv with
  | Returns stored => model_validate stored
  | Raises e => Raises e
  end.

Definition load_settings (kv : kv_store Dict)
  : outcome (EnterpriseSettings Fields) * kv_store Dict :=
  match load_stored_settings kv with
  | Raises KvKeyNotFoundError =>
      let settings := default_settings in
      (Returns settings,
       kv_put KV_ENTERPRISE_SETTINGS_KEY (KvDict (model_dump settings)) kv)
  | loaded => (loaded, kv)
  end.

Definition store_settings (settings : EnterpriseSettings Fields)
  (kv : kv_store Dict) : kv_store Dict :=
  kv_put KV_ENTERPRISE_SETTINGS_KEY (KvDict (model_dump settings)) kv.

Definition load_runtime_settings (kv : kv_store Dict)
  : outcome (EnterpriseSettings Fields) * kv_store Dict :=
  match load_settings kv with
  | (Returns enterprise_settings, kv') =>
      (Returns
         (if truthy enterprise_settings.(application_name)
          then enterprise_settings
          else {| application_name := Some ONYX_DEFAULT_APPLICATION_NAME;
                  other_fields := enterprise_settings.(other_fields) |}),
       kv')
  | (Raises e, kv') => (Raises e, kv')
  end.

Definition load_analytics_script (kv : kv_store Dict)
  : outcome (option (kv_value Dict)) :=
  match kv_load KV_CUSTOM_ANALYTICS_SCRIPT_KEY kv with
  | Returns stored => Returns (Some stored)
  | Raises KvKeyNotFoundError => Returns None
  | Raises e => Raises e
  end.

Definition store_analytics_script (analytics_script_upload : AnalyticsScriptUpload)
  (kv : kv_store Dict) : outcome unit * kv_store Dict :=
  if negb (truthy _CUSTOM_ANALYTICS_SECRET_KEY)
     || negb (match _CUSTOM_ANALYTICS_SECRET_KEY with
              | Some key => String.eqb analytics_script_upload.(secret_key) key
              | None => false
              end)
  then (Raises (ValueError "Invalid secret key"), kv)
  else (Returns tt,
        kv_put KV_CUSTOM_ANALYTICS_SCRIPT_KEY
          (KvStr analytics_script_upload.(script)) kv).

End Store.

End EnterpriseStore.

(** * Inputs of the further examples *)

(** A 429 whose [Retry-After] is a date. *)
Definition dated_query : query Content :=
  fun _ => rate_limit_failure 429 [("Retry-After", "Wed, 21 Oct 2015 07:28:00 GMT")].

(** A file at the root of a drive: its parent path ends with [root:]. *)
Definition root_item : DriveItem :=
  example_item "notes.txt" "/drives/b1/root:" SizeNone 100.

Definition team_drive : Drive := example_drive "Team" [nested_item; root_item].

(** A file whose download fails. *)
Definition failing_item : DriveItem :=
  {| item_id := "broken";
     name := "broken";
     size := SizeNone;
     web_url := "https://host/sites/A/broken";
     last_modified_datetime := 100;
     last_modified_by := {| display_name := "Ada"; email := "ada@host" |};
     parent_reference_path := "/drives/b1/root:/test";
     get_content := disconnected_query |}.

(** A drive whose third file cannot be downloaded. *)
Definition flaky_drive : Drive :=
  example_drive "Archive" (firstn 2 five_items ++ failing_item :: skipn 2 five_items).

Definition flaky_connector : SharepointConnector :=
  load_credentials (init 2 ["https://host/sites/A"])
    {| site_drives := fun _ => Return [flaky_drive];
       get_all_sites := Return (LastPage []) |}.

Definition site_a : Site := {| site_web_url := "https://host/sites/A" |}.
Definition site_b : Site := {| site_web_url := "https://host/sites/B" |}.

(** A listing of the sites in two pages. *)
Definition two_pages : SitesWithRoot := NextPage [site_a] (LastPage [site_b]).

Definition paged_connector : SharepointConnector :=
  load_credentials (init 2 [])
    {| site_drives := fun _ => Return [archive_drive];
       get_all_sites := Return two_pages |}.

(** A file system with one logo. *)
Definition example_fs (path : string) : EnterpriseStore.path_state :=
  if String.eqb path "/srv/logo.jpeg"
  then EnterpriseStore.RegularFile "jpeg bytes"
  else EnterpriseStore.NotAFile.

Definition example_logo : EnterpriseStore.SavedFile :=
  {| EnterpriseStore.content := "jpeg bytes";
     EnterpriseStore.display_name := "/srv/logo.jpeg";
     EnterpriseStore.file_origin := EnterpriseStore.OTHER;
     EnterpriseStore.file_type := "image/jpeg";
     EnterpriseStore.file_id := "__logo__" |}.

(** Settings without other fields, dumped as they are. *)
Definition example_settings : EnterpriseStore.EnterpriseSettings unit :=
  {| EnterpriseStore.application_name := Some "Acme";
     EnterpriseStore.other_fields := tt |}.

Definition example_validate
  (stored : EnterpriseStore.kv_value (EnterpriseStore.EnterpriseSettings unit))
  : EnterpriseStore.outcome (EnterpriseStore.EnterpriseSettings unit) :=
  match stored with
  | EnterpriseStore.KvDict d => EnterpriseStore.Returns d
  | EnterpriseStore.KvStr _ =>
      EnterpriseStore.Raises
        (EnterpriseStore.TypeError "argument after ** must be a mapping")
  end.

Definition example_upload : EnterpriseStore.AnalyticsScriptUpload :=
  {| EnterpriseStore.script := "console.log(1)";
     EnterpriseStore.secret_key := "s3cret" |}.

(** * Verified properties *)

(** ** The retry wrapper *)

Section Retry.

Context {A : Type}.
Variable query_obj : query A.
Variable max_retries : Z.

Lemma rate_limit_status_iff (r : Response) :
  rate_limit_status r = true
  <-> r.(status_code) = 429%Z \/ r.(status_code) = 503%Z.
Proof.
  unfold rate_limit_status. simpl.
  rewrite !orb_true_iff, !Z.eqb_eq. intuition congruence.
Qed.

Lemma rate_limit_status_false (r : Response) :
  r.(status_code) <> 429%Z -> r.(status_code) <> 503%Z ->
  rate_limit_status r = false.
Proof.
  intros H1 H2. destruct (rate_limit_status r) eqn:E; [|reflexivity].
  apply rate_limit_status_iff in E. tauto.
Qed.

(** The sleep the code computes is the one the policy prescribes. *)
Lemma sleep_time_of_policy (r : Response) (attempt : nat) (d : Z) :
  policy_sleep r attempt d ->
  sleep_time_of r attempt = ret d /\ time_sleep d = emit (Sleep d).
Proof.
  unfold policy_sleep, supplied_retry_after, sleep_time_of, backoff, time_sleep.
  destruct (headers_get "Retry-After" (headers r)) as [s|].
  - destruct (String.eqb s "") eqn:Es.
    + intros ->. split; [reflexivity|].
      replace (_ <? 0)%Z with false; [reflexivity|].
      symmetry. apply Z.ltb_ge. apply Z.min_glb; [lia|].
      apply Z.mul_nonneg_nonneg; [|lia]. apply Z.pow_nonneg. lia.
    + intros [-> Hd]. split; [reflexivity|].
      replace (d <? 0)%Z with false; [reflexivity|].
      symmetry. now apply Z.ltb_ge.
  - intros ->. split; [reflexivity|].
    replace (_ <? 0)%Z with false; [reflexivity|].
    symmetry. apply Z.ltb_ge. apply Z.min_glb; [lia|].
    apply Z.mul_nonneg_nonneg; [|lia]. apply Z.pow_nonneg. lia.
Qed.

(** A successful attempt ends the loop with its value. *)
Lemma retry_loop_return (attempt : nat) (rest : list nat) (v : option A) :
  query_obj attempt = Return v ->
  retry_loop query_obj max_retries (attempt :: rest) = ([ExecuteQuery], Return v).
Proof. intros H. simpl. rewrite H. reflexivity. Qed.

(** A rate-limited attempt that may be retried sleeps, then goes on with
    the next attempt. *)
Lemma retry_loop_retry (attempt : nat) (rest : list nat) (d : Z) :
  (Z.of_nat attempt < max_retries)%Z ->
  rate_limited_at query_obj attempt d ->
  retry_loop query_obj max_retries (attempt :: rest)
  = (ExecuteQuery :: Sleep d :: fst (retry_loop query_obj max_retries rest),
     snd (retry_loop query_obj max_retries rest)).
Proof.
  intros Hlt (r & message & Hq & Hstatus & Hpolicy).
  apply rate_limit_status_iff in Hstatus.
  apply sleep_time_of_policy in Hpolicy as [Hs Ht].
  simpl. rewrite Hq, Hstatus.
  replace (Z.of_nat attempt <? max_retries)%Z with true
    by (symmetry; now apply Z.ltb_lt).
  simpl. rewrite Hs. simpl. rewrite Ht. simpl.
  destruct (retry_loop query_obj max_retries rest) as [t res].
  destruct res; reflexivity.
Qed.

(** A failure that is not a rate limit is raised again at once. *)
Lemma retry_loop_propagate (attempt : nat) (rest : list nat) (e : exn) :
  query_obj attempt = Raise e ->
  not_rate_limit e ->
  retry_loop query_obj max_retries (attempt :: rest) = ([ExecuteQuery], Raise e).
Proof.
  intros Hq He. simpl. rewrite Hq.
  destruct e as [[r|] message| | | | | | |]; try reflexivity.
  destruct He as [H1 H2]. rewrite (rate_limit_status_false r H1 H2). reflexivity.
Qed.

(** Any failure of an attempt that has no retry left is raised again. *)
Lemma retry_loop_exhausted (attempt : nat) (rest : list nat) (e : exn) :
  (max_retries <= Z.of_nat attempt)%Z ->
  query_obj attempt = Raise e ->
  retry_loop query_obj max_retries (attempt :: rest) = ([ExecuteQuery], Raise e).
Proof.
  intros Hle Hq. simpl. rewrite Hq.
  destruct e as [[r|] message| | | | | | |]; try reflexivity.
  replace (Z.of_nat attempt <? max_retries)%Z with false
    by (symmetry; now apply Z.ltb_ge).
  rewrite andb_false_r. reflexivity.
Qed.

(** The last attempt ends the loop whatever it answers. *)
Lemma retry_loop_last (attempt : nat) (rest : list nat) :
  (max_retries <= Z.of_nat attempt)%Z ->
  retry_loop query_obj max_retries (attempt :: rest)
  = ([ExecuteQuery], query_obj attempt).
Proof.
  intros Hle. destruct (query_obj attempt) as [v|e] eqn:Hq.
  - now apply retry_loop_return.
  - now apply retry_loop_exhausted.
Qed.

Lemma retry_loop_settles (attempt : nat) (rest : list nat) :
  settles (query_obj attempt) ->
  retry_loop query_obj max_retries (attempt :: rest)
  = ([ExecuteQuery], query_obj attempt).
Proof.
  intros H. destruct (query_obj attempt) as [v|e] eqn:Hq.
  - now apply retry_loop_return.
  - now apply retry_loop_propagate.
Qed.

(** [k] rate-limited attempts from attempt [a] on, then an attempt that
    ends the loop. *)
Lemma retry_loop_run (d : nat -> Z) (k : nat) :
  forall (a : nat) (rest : list nat),
    (Z.of_nat (a + k) <= max_retries)%Z ->
    (forall i, a <= i < a + k -> rate_limited_at query_obj i (d i)) ->
    settles (query_obj (a + k)) \/ (max_retries <= Z.of_nat (a + k))%Z ->
    retry_loop query_obj max_retries (seq a k ++ (a + k) :: rest)
    = (flat_map (fun i => [ExecuteQuery; Sleep (d i)]) (seq a k) ++ [ExecuteQuery],
       query_obj (a + k)).
Proof.
  induction k as [|k IH]; intros a rest Hle Hlim Hend.
  - rewrite Nat.add_0_r in *. simpl seq. simpl app.
    destruct Hend as [Hs|Hs].
    + now apply retry_loop_settles.
    + now apply retry_loop_last.
  - simpl seq. simpl app.
    rewrite (retry_loop_retry a _ (d a)); [|lia|apply Hlim; lia].
    replace (a + S k) with (S a + k) in * by lia.
    rewrite (IH (S a) rest); [reflexivity|lia| |exact Hend].
    intros i Hi. apply Hlim. lia.
Qed.

End Retry.


(** C10. A client-request exception that carries no response is raised
    again at the first attempt: one call, no sleep, no retry. *)
Theorem sleep_and_retry_no_response {A : Type} (query_obj : query A)
  (method_name : string) (max_retries : Z) (message : string) :
  (0 <= max_retries)%Z ->
  query_obj 0 = Raise (ClientRequestException None message) ->
  _sleep_and_retry query_obj method_name max_retries
  = ([ExecuteQuery], Raise (ClientRequestException None message)).
Proof.
  intros Hm Hq. unfold _sleep_and_retry.
  replace (Z.to_nat (max_retries + 1)) with (S (Z.to_nat max_retries)) by lia.
  simpl seq. now apply retry_loop_propagate.
Qed.

(** ** The document converter *)

Section Converter.

Variable SHAREPOINT_CONNECTOR_SIZE_THRESHOLD : Z.
Variable extract_file_text : string -> string -> string.

Local Abbreviation convert :=
  (_convert_driveitem_to_document SHAREPOINT_CONNECTOR_SIZE_THRESHOLD
     extract_file_text).
Local Abbreviation retrieval driveitem :=
  (_sleep_and_retry driveitem.(get_content) "get_content" default_max_retries).

(** The size check skips an item exactly when its size is known and exceeds
    the threshold; a size that cannot be read lets the item through. *)
Lemma size_check_cases (driveitem : DriveItem) :
  match known_size driveitem with
  | Some n =>
      size_check SHAREPOINT_CONNECTOR_SIZE_THRESHOLD driveitem
      = Return (n >? SHAREPOINT_CONNECTOR_SIZE_THRESHOLD)%Z
  | None =>
      size_check SHAREPOINT_CONNECTOR_SIZE_THRESHOLD driveitem = Return false
      \/ exists e,
          size_check SHAREPOINT_CONNECTOR_SIZE_THRESHOLD driveitem = Raise e
          /\ size_error_caught e = true
  end.
Proof.
  unfold known_size, size_check.
  destruct (size driveitem) as [|n|[|]]; simpl.
  - now left.
  - reflexivity.
  - right. eexists. split; reflexivity.
  - right. eexists. split; reflexivity.
Qed.

Lemma convert_exceeding (driveitem : DriveItem) (drive_name : string) (n : Z) :
  known_size driveitem = Some n ->
  (SHAREPOINT_CONNECTOR_SIZE_THRESHOLD < n)%Z ->
  convert driveitem drive_name = ([], Return None).
Proof.
  intros Hk Hn. unfold _convert_driveitem_to_document.
  pose proof (size_check_cases driveitem) as H. rewrite Hk in H. rewrite H.
  replace (n >? SHAREPOINT_CONNECTOR_SIZE_THRESHOLD)%Z with true; [reflexivity|].
  symmetry. apply Z.gtb_lt. exact Hn.
Qed.

Lemma convert_proceeds (driveitem : DriveItem) (drive_name : string) :
  (forall n, known_size driveitem = Some n ->
             (n <= SHAREPOINT_CONNECTOR_SIZE_THRESHOLD)%Z) ->
  convert driveitem drive_name
  = (fst (retrieval driveitem),
     match snd (retrieval driveitem) with
     | Return (Some content) =>
         Return (Some (build_document extract_file_text driveitem drive_name content))
     | Return None => Return None
     | Raise e => Raise e
     end).
Proof.
  intros Hle.
  assert (Hd : convert driveitem drive_name
               = download_and_convert extract_file_text driveitem drive_name).
  { unfold _convert_driveitem_to_document.
    pose proof (size_check_cases driveitem) as H.
    destruct (known_size driveitem) as [n|].
    - rewrite H.
      replace (n >? SHAREPOINT_CONNECTOR_SIZE_THRESHOLD)%Z with false; [reflexivity|].
      symmetry. rewrite Z.gtb_ltb. apply Z.ltb_ge. now apply Hle.
    - destruct H as [H|(e & H & He)]; rewrite H; [reflexivity|].
      rewrite He. reflexivity. }
  rewrite Hd. unfold download_and_convert.
  destruct (retrieval driveitem) as [t [[c|]|e]]; simpl;
    rewrite ?app_nil_r; reflexivity.
Qed.


End Converter.

(** ** The traversal *)

Section Traversal.

Variable missing_credential_text : string -> string.

Local Abbreviation fetch := (_fetch_driveitems missing_credential_text).

(** *** The time window *)

Lemma in_window_iff (s e : Z) (item : DriveItem) :
  in_window s e item = true
  <-> (s <= item.(last_modified_datetime) <= e)%Z.
Proof.
  unfold in_window, replace_tzinfo_utc.
  rewrite andb_true_iff, !Z.leb_le. tauto.
Qed.

Lemma filter_pairs {X Y : Type} (p : X -> bool) (y : Y) (l : list X) :
  map (fun x => (x, y)) (filter p l)
  = filter (fun q => p (fst q)) (map (fun x => (x, y)) l).
Proof.
  induction l as [|x l IH]; simpl; [reflexivity|].
  destruct (p x); simpl; now rewrite IH.
Qed.

Lemma filter_flat_map {X Y : Type} (p : Y -> bool) (f : X -> list Y) (l : list X) :
  filter p (flat_map f l) = flat_map (fun x => filter p (f x)) l.
Proof.
  induction l as [|x l IH]; simpl; [reflexivity|].
  now rewrite filter_app, IH.
Qed.

(** The window is applied last: a drive gives, with a window, what it gives
    without one, filtered. *)
Lemma process_drive_window (sd : SiteDescriptor) (s e : Z) (drive : Drive) :
  process_drive sd (Some s) (Some e) drive
  = match process_drive sd None None drive with
    | Return pairs => Return (filter (fun q => in_window s e (fst q)) pairs)
    | Raise x => Raise x
    end.
Proof.
  unfold process_drive.
  destruct (get_files drive _) as [driveitems|x]; [|reflexivity].
  destruct (filter_by_folder _ driveitems) as [kept|x]; [|reflexivity].
  simpl. now rewrite filter_pairs.
Qed.

Lemma process_drives_window (sd : SiteDescriptor) (s e : Z) (drives : list Drive) :
  process_drives sd (Some s) (Some e) drives
  = filter (fun q => in_window s e (fst q)) (process_drives sd None None drives).
Proof.
  unfold process_drives. rewrite filter_flat_map.
  apply flat_map_ext. intros drive.
  rewrite process_drive_window.
  destruct (process_drive sd None None drive); reflexivity.
Qed.

Lemma fetch_body_window (self : SharepointConnector) (sd : SiteDescriptor)
  (s e : Z) :
  fetch_driveitems_body self sd (Some s) (Some e)
  = match fetch_driveitems_body self sd None None with
    | Return pairs => Return (filter (fun q => in_window s e (fst q)) pairs)
    | Raise x => Raise x
    end.
Proof.
  unfold fetch_driveitems_body.
  destruct (graph_client self) as [client|x]; [|reflexivity].
  destruct (site_drives client (url sd)) as [drives|x]; [|reflexivity].
  destruct (truthy (drive_name sd)), (filter_drives (drive_name sd) drives);
    try reflexivity; now rewrite process_drives_window.
Qed.


(** *** Drives and library names *)

Lemma drive_matches_iff (requested : string) (drive : Drive) :
  drive_matches requested drive = true
  <-> drive.(drive_name_of) = requested
      \/ (drive.(drive_name_of) = "Documents" /\ requested = "Shared Documents").
Proof.
  unfold drive_matches.
  rewrite orb_true_iff, andb_true_iff, !String.eqb_eq. tauto.
Qed.

Lemma truthy_Some (s : string) : s <> "" -> truthy (Some s) = true.
Proof.
  intros H. simpl. destruct (String.eqb s "") eqn:E; [|reflexivity].
  apply String.eqb_eq in E. contradiction.
Qed.

Lemma library_name_cases (drive : Drive) :
  (drive.(drive_name_of) = "Documents" /\ library_name drive = "Shared Documents")
  \/ (drive.(drive_name_of) <> "Documents"
      /\ library_name drive = drive.(drive_name_of)).
Proof.
  unfold library_name.
  destruct (String.eqb (drive_name_of drive) "Documents") eqn:E.
  - left. apply String.eqb_eq in E. now split.
  - right. apply String.eqb_neq in E. now split.
Qed.

Lemma filter_result_In {X : Type} (cond : X -> result bool) (l kept : list X) (x : X) :
  filter_result cond l = Return kept -> In x kept -> In x l.
Proof.
  revert kept. induction l as [|y l IH]; simpl; intros kept H Hin.
  - injection H as <-. exact Hin.
  - destruct (cond y) as [keep|]; [|discriminate].
    destruct (filter_result cond l) as [kept'|]; [|discriminate].
    injection H as <-. destruct keep.
    + destruct Hin as [<-|Hin]; [now left|right; now apply (IH kept')].
    + right. now apply (IH kept').
Qed.

(** Every pair a drive gives holds an item of its listing and the library
    name of the drive. *)
Lemma process_drive_In (sd : SiteDescriptor) (start end_ : option Z)
  (drive : Drive) (pairs : list (DriveItem * string)) (item : DriveItem)
  (label : string) :
  process_drive sd start end_ drive = Return pairs ->
  In (item, label) pairs ->
  label = library_name drive
  /\ exists listed,
      drive.(get_files) (folder_parts sd.(folder_path)) = Return listed
      /\ In item listed.
Proof.
  unfold process_drive.
  destruct (get_files drive _) as [listed|]; [|discriminate].
  destruct (filter_by_folder _ listed) as [kept|] eqn:Hf; [|discriminate].
  intros H Hin. injection H as <-.
  apply in_map_iff in Hin as (x & Hx & Hin). injection Hx as -> ->.
  split; [reflexivity|]. exists listed. split; [reflexivity|].
  assert (Hk : In item kept).
  { unfold filter_by_window in Hin.
    destruct start, end_; try exact Hin. now apply filter_In in Hin. }
  unfold filter_by_folder in Hf.
  destruct (folder_path sd) as [folder|]; [|injection Hf as <-; exact Hk].
  destruct (truthy (Some folder)); [|injection Hf as <-; exact Hk].
  now apply (filter_result_In _ _ _ _ Hf).
Qed.

(** Every pair of the traversal comes from a drive of the site that the
    filter by name kept. *)
Lemma fetch_driveitems_In (self : SharepointConnector) (sd : SiteDescriptor)
  (start end_ : option Z) (pairs : list (DriveItem * string))
  (item : DriveItem) (label : string) :
  fetch self sd start end_ = Return pairs ->
  In (item, label) pairs ->
  exists client drives drive listed,
    self.(_graph_client) = Some client
    /\ client.(site_drives) sd.(url) = Return drives
    /\ In drive (filter_drives sd.(drive_name) drives)
    /\ drive.(get_files) (folder_parts sd.(folder_path)) = Return listed
    /\ In item listed
    /\ label = library_name drive.
Proof.
  unfold _fetch_driveitems, fetch_driveitems_body, graph_client.
  destruct (_graph_client self) as [client|].
  2:{ destruct (fatal_site_error _); [discriminate|].
      intros H. injection H as <-. contradiction. }
  destruct (site_drives client (url sd)) as [drives|x] eqn:Hs.
  2:{ destruct (fatal_site_error _); [discriminate|].
      intros H. injection H as <-. contradiction. }
  intros H Hin.
  assert (Hp : In (item, label)
                 (process_drives sd start end_
                    (filter_drives (drive_name sd) drives))).
  { destruct (truthy (drive_name sd)), (filter_drives (drive_name sd) drives);
      injection H as <-; solve [exact Hin | contradiction]. }
  unfold process_drives in Hp. apply in_flat_map in Hp as (drive & Hd & Hp).
  destruct (process_drive sd start end_ drive) as [ps|] eqn:Hpd; [|contradiction].
  destruct (process_drive_In _ _ _ _ _ _ _ Hpd Hp) as (Hl & listed & Hg & Hi).
  exists client, drives, drive, listed. repeat split; assumption || reflexivity.
Qed.


(** *** Failures of the resolution of a site *)

Lemma fatal_site_error_iff (err_str : string) :
  fatal_site_error err_str = true
  <-> PyStr.contains "403 Client Error" err_str = true
      \/ PyStr.contains "404 Client Error" err_str = true
      \/ PyStr.contains "invalid_client" err_str = true.
Proof. unfold fatal_site_error. rewrite !orb_true_iff. tauto. Qed.

(** A failure whose text names a 403, a 404 or an invalid client is raised
    again. *)
Lemma fetch_driveitems_fatal (self : SharepointConnector) (sd : SiteDescriptor)
  (start end_ : option Z) (e : exn) :
  fetch_driveitems_body self sd start end_ = Raise e ->
  fatal_site_error (str missing_credential_text e) = true ->
  fetch self sd start end_ = Raise e.
Proof. intros Hb Hf. unfold _fetch_driveitems. now rewrite Hb, Hf. Qed.

(** Any other failure skips the target: the traversal returns no item. *)
Lemma fetch_driveitems_skipped (self : SharepointConnector) (sd : SiteDescriptor)
  (start end_ : option Z) (e : exn) :
  fetch_driveitems_body self sd start end_ = Raise e ->
  fatal_site_error (str missing_credential_text e) = false ->
  fetch self sd start end_ = Return [].
Proof. intros Hb Hf. unfold _fetch_driveitems. now rewrite Hb, Hf. Qed.

(** The traversal raises only failures that the handler takes as fatal. *)
Lemma fetch_driveitems_raises_fatal (self : SharepointConnector)
  (sd : SiteDescriptor) (start end_ : option Z) (e : exn) :
  fetch self sd start end_ = Raise e ->
  fetch_driveitems_body self sd start end_ = Raise e
  /\ fatal_site_error (str missing_credential_text e) = true.
Proof.
  unfold _fetch_driveitems.
  destruct (fetch_driveitems_body self sd start end_) as [pairs|x]; [discriminate|].
  destruct (fatal_site_error (str missing_credential_text x)) eqn:Hf; [|discriminate].
  intros H. injection H as <-. now split.
Qed.

(** The failure of the listing of the drives of the site is a failure of the
    statements under the outer [try]. *)
Lemma fetch_body_site_failure (self : SharepointConnector) (sd : SiteDescriptor)
  (start end_ : option Z) (client : GraphClient) (e : exn) :
  self.(_graph_client) = Some client ->
  client.(site_drives) sd.(url) = Raise e ->
  fetch_driveitems_body self sd start end_ = Raise e.
Proof.
  intros Hc Hs. unfold fetch_driveitems_body, graph_client. now rewrite Hc, Hs.
Qed.

(** Without a client, the property [graph_client] raises inside the outer
    [try], and the handler decides on the text of the exception. *)
Lemma fetch_body_missing_credential (self : SharepointConnector)
  (sd : SiteDescriptor) (start end_ : option Z) :
  self.(_graph_client) = None ->
  fetch_driveitems_body self sd start end_
  = Raise (ConnectorMissingCredentialError "Sharepoint").
Proof.
  intros Hc. unfold fetch_driveitems_body, graph_client. now rewrite Hc.
Qed.

Lemma fetch_driveitems_missing_credential (self : SharepointConnector)
  (sd : SiteDescriptor) (start end_ : option Z) :
  self.(_graph_client) = None ->
  fatal_site_error (missing_credential_text "Sharepoint") = false ->
  fetch self sd start end_ = Return [].
Proof.
  intros Hc Hf.
  apply (fetch_driveitems_skipped _ _ _ _
           (ConnectorMissingCredentialError "Sharepoint")).
  - now apply fetch_body_missing_credential.
  - exact Hf.
Qed.

(** *** The enumeration of the sites *)

Lemma fetch_sites_missing_credential (self : SharepointConnector) :
  self.(_graph_client) = None ->
  _fetch_sites self = Raise (ConnectorMissingCredentialError "Sharepoint").
Proof. intros Hc. unfold _fetch_sites, graph_client. now rewrite Hc. Qed.

Lemma fetch_sites_no_sites (self : SharepointConnector) (client : GraphClient)
  (sites : SitesWithRoot) :
  self.(_graph_client) = Some client ->
  client.(get_all_sites) = Return sites ->
  current_page_of sites = [] ->
  _fetch_sites self = Raise (RuntimeError "No sites found in the tenant").
Proof.
  intros Hc Hs Hp. unfold _fetch_sites, graph_client, sites_bool.
  now rewrite Hc, Hs, Hp.
Qed.

End Traversal.

(** ** Runs *)

Section Runs.

Variable SHAREPOINT_CONNECTOR_SIZE_THRESHOLD : Z.
Variable extract_file_text : string -> string -> string.
Variable missing_credential_text : string -> string.

Local Abbreviation fetch := (_fetch_driveitems missing_credential_text).
Local Abbreviation convert :=
  (_convert_driveitem_to_document SHAREPOINT_CONNECTOR_SIZE_THRESHOLD
     extract_file_text).
Local Abbreviation run_sites :=
  (sites_loop SHAREPOINT_CONNECTOR_SIZE_THRESHOLD extract_file_text
     missing_credential_text).
Local Abbreviation run_items :=
  (items_loop SHAREPOINT_CONNECTOR_SIZE_THRESHOLD extract_file_text).
Local Abbreviation fetch_from_sharepoint :=
  (_fetch_from_sharepoint SHAREPOINT_CONNECTOR_SIZE_THRESHOLD extract_file_text
     missing_credential_text).

(** A failure of the enumeration of the sites ends the run before any
    batch: so do a missing credential and a tenant without sites. *)
Lemma run_enumeration_failure (self : SharepointConnector)
  (start end_ : option Z) (e : exn) :
  self.(site_descriptors) = [] ->
  _fetch_sites self = Raise e ->
  fetch_from_sharepoint self start end_ = {| yielded := []; failure := Some e |}.
Proof.
  intros Hd Hf. unfold _fetch_from_sharepoint. now rewrite Hd, Hf.
Qed.

(** A fatal failure of the resolution of the first target ends the run. *)
Lemma run_site_failure (self : SharepointConnector) (start end_ : option Z)
  (sd : SiteDescriptor) (rest : list SiteDescriptor) (e : exn) :
  self.(site_descriptors) = sd :: rest ->
  fetch self sd start end_ = Raise e ->
  fetch_from_sharepoint self start end_ = {| yielded := []; failure := Some e |}.
Proof.
  intros Hd Hf. unfold _fetch_from_sharepoint. rewrite Hd. simpl. now rewrite Hf.
Qed.

(** A target that is skipped leaves the run to go on with the next ones. *)
Lemma run_site_skipped (self : SharepointConnector) (start end_ : option Z)
  (sd : SiteDescriptor) (rest : list SiteDescriptor) (doc_batch : list Document) :
  fetch self sd start end_ = Return [] ->
  run_sites self start end_ (sd :: rest) doc_batch
  = run_sites self start end_ rest doc_batch.
Proof. intros Hf. simpl. now rewrite Hf. Qed.

Lemma run_without_client (self : SharepointConnector) (start end_ : option Z)
  (descriptors : list SiteDescriptor) (doc_batch : list Document) :
  self.(_graph_client) = None ->
  fatal_site_error (missing_credential_text "Sharepoint") = false ->
  run_sites self start end_ descriptors doc_batch
  = {| yielded := [doc_batch]; failure := None |}.
Proof.
  intros Hc Hf. induction descriptors as [|sd rest IH]; [reflexivity|].
  rewrite run_site_skipped; [exact IH|].
  now apply fetch_driveitems_missing_credential.
Qed.

(** C8, where the code departs from it.  A connector with configured
    targets and no credential does not fail: when the text of the
    missing-credential exception names neither a 403, a 404 nor an invalid
    client, every target is skipped and the run yields one empty batch. *)
Theorem missing_credential_swallowed (self : SharepointConnector)
  (start end_ : option Z) :
  self.(_graph_client) = None ->
  self.(site_descriptors) <> [] ->
  fatal_site_error (missing_credential_text "Sharepoint") = false ->
  fetch_from_sharepoint self start end_ = {| yielded := [[]]; failure := None |}.
Proof.
  intros Hc Hd Hf. unfold _fetch_from_sharepoint.
  destruct (site_descriptors self) as [|sd rest]; [contradiction|].
  now apply run_without_client.
Qed.

(** *** Batching *)

Lemma accumulate_concat (batchSize : Z) (docs : list Document) :
  forall buffer, concat (accumulate batchSize buffer docs) = buffer ++ docs.
Proof.
  induction docs as [|d docs IH]; intros buffer; simpl.
  - now rewrite !app_nil_r.
  - destruct (Z.of_nat (List.length (buffer ++ [d])) =? batchSize)%Z.
    + simpl. rewrite IH. simpl. now rewrite <- app_assoc.
    + rewrite IH. now rewrite <- app_assoc.
Qed.

(** Every batch but the last is full, and the last one is not. *)
Lemma accumulate_shape (batchSize : Z) (docs : list Document) :
  forall buffer,
    (Z.of_nat (List.length buffer) < batchSize)%Z ->
    exists full remaining,
      accumulate batchSize buffer docs = full ++ [remaining]
      /\ Forall (fun batch => Z.of_nat (List.length batch) = batchSize) full
      /\ (Z.of_nat (List.length remaining) < batchSize)%Z.
Proof.
  induction docs as [|d docs IH]; intros buffer Hb; simpl.
  - exists [], buffer. repeat split; [constructor|exact Hb].
  - destruct (Z.of_nat (List.length (buffer ++ [d])) =? batchSize)%Z eqn:E.
    + apply Z.eqb_eq in E.
      destruct (IH []) as (full & remaining & H1 & H2 & H3); [simpl; lia|].
      exists ((buffer ++ [d]) :: full), remaining.
      rewrite H1. repeat split; [now constructor|exact H3].
    + apply Z.eqb_neq in E. apply IH.
      rewrite length_app in *. simpl in *. lia.
Qed.

(** The inner loop refines the accumulation of the documents it converts,
    whatever loop follows it. *)
Lemma items_loop_accumulate (batch_size : Z) (docs_after : list Document)
  (continue_ : list Document -> run) :
  (forall buffer,
      (Z.of_nat (List.length buffer) < batch_size)%Z ->
      failure (continue_ buffer) = None ->
      yielded (continue_ buffer) = accumulate batch_size buffer docs_after) ->
  forall driveitems doc_batch,
    (Z.of_nat (List.length doc_batch) < batch_size)%Z ->
    failure (run_items batch_size driveitems doc_batch continue_) = None ->
    yielded (run_items batch_size driveitems doc_batch continue_)
    = accumulate batch_size doc_batch
        (converted_of_items SHAREPOINT_CONNECTOR_SIZE_THRESHOLD
           extract_file_text driveitems ++ docs_after).
Proof.
  intros Hk. induction driveitems as [|[driveitem drive_name] rest IH];
    intros doc_batch Hb Hf.
  - simpl in *. now apply Hk.
  - simpl in Hf |- *.
    destruct (snd (convert driveitem drive_name)) as [[doc|]|e].
    + simpl app.
      cbn [accumulate].
      destruct (Z.of_nat (List.length (doc_batch ++ [doc])) >=? batch_size)%Z eqn:E.
      * assert (Z.of_nat (List.length (doc_batch ++ [doc])) = batch_size) as E'.
        { rewrite Z.geb_leb in E. apply Z.leb_le in E.
          rewrite length_app in *. simpl in *. lia. }
        rewrite E', Z.eqb_refl. simpl in Hf |- *. f_equal.
        apply IH; [simpl; lia|exact Hf].
      * assert (Z.of_nat (List.length (doc_batch ++ [doc])) < batch_size)%Z as E'.
        { rewrite Z.geb_leb in E. now apply Z.leb_gt in E. }
        replace (_ =? batch_size)%Z with false
          by (symmetry; apply Z.eqb_neq; lia).
        now apply IH.
    + simpl app.
      replace (Z.of_nat (List.length doc_batch) >=? batch_size)%Z with false in *
        by (symmetry; rewrite Z.geb_leb; apply Z.leb_gt; exact Hb).
      now apply IH.
    + discriminate.
Qed.

(** The outer loop refines the accumulation of the documents of its
    targets. *)
Lemma sites_loop_accumulate (self : SharepointConnector) (start end_ : option Z)
  (descriptors : list SiteDescriptor) :
  forall doc_batch,
    (Z.of_nat (List.length doc_batch) < self.(batch_size))%Z ->
    failure (run_sites self start end_ descriptors doc_batch) = None ->
    yielded (run_sites self start end_ descriptors doc_batch)
    = accumulate self.(batch_size) doc_batch
        (converted_documents SHAREPOINT_CONNECTOR_SIZE_THRESHOLD
           extract_file_text missing_credential_text self start end_ descriptors).
Proof.
  induction descriptors as [|sd rest IH]; intros doc_batch Hb Hf.
  - reflexivity.
  - simpl in Hf |- *.
    destruct (fetch self sd start end_) as [driveitems|e]; [|discriminate].
    apply (items_loop_accumulate _ _ _ IH); assumption.
Qed.


End Runs.

(** ** Strings *)

Section Strings.

Lemma append_nil_r (s : string) : (s ++ "")%string = s.
Proof. induction s as [|c s IH]; simpl; [reflexivity|now rewrite IH]. Qed.

Lemma append_assoc (s t u : string) :
  ((s ++ t) ++ u)%string = (s ++ (t ++ u))%string.
Proof. induction s as [|c s IH]; simpl; [reflexivity|now rewrite IH]. Qed.

Lemma rev_append_spec (s acc : string) :
  PyStr.rev_append s acc = (PyStr.rev s ++ acc)%string.
Proof.
  unfold PyStr.rev. revert acc.
  induction s as [|c s IH]; intros acc; simpl; [reflexivity|].
  rewrite IH, (IH (String c "")), append_assoc. reflexivity.
Qed.

Lemma rev_cons (c : ascii) (s : string) :
  PyStr.rev (String c s) = (PyStr.rev s ++ String c "")%string.
Proof. unfold PyStr.rev at 1. simpl. apply rev_append_spec. Qed.

(** One step of the splitting at a separator of one character. *)
Lemma split_go_char (sep c : ascii) (cur s : string) :
  PyStr.split_go (String sep "") 0 cur (String c s)
  = if Ascii.eqb sep c
    then PyStr.rev cur :: PyStr.split_go (String sep "") 0 "" s
    else PyStr.split_go (String sep "") 0 (String c cur) s.
Proof.
  simpl. destruct (ascii_dec sep c) as [->|Hne].
  - rewrite Ascii.eqb_refl. now destruct s.
  - apply Ascii.eqb_neq in Hne. now rewrite Hne.
Qed.

Lemma split_go_nonempty (sep cur s : string) (skip : nat) :
  PyStr.split_go sep skip cur s <> [].
Proof.
  revert skip cur. induction s as [|c s IH]; intros skip cur; simpl.
  - discriminate.
  - destruct skip; [|apply IH].
    match goal with
    | |- (if ?b then _ else _) <> _ => destruct b; [discriminate|apply IH]
    end.
Qed.

Lemma join_cons (sep x : string) (l : list string) :
  l <> [] ->
  PyStr.join sep (x :: l) = (x ++ sep ++ PyStr.join sep l)%string.
Proof. destruct l; [contradiction|reflexivity]. Qed.

(** Joining the pieces of a string with the separator gives it back. *)
Lemma join_split_go (sep : ascii) (s : string) :
  forall cur,
    PyStr.join (String sep "") (PyStr.split_go (String sep "") 0 cur s)
    = (PyStr.rev cur ++ s)%string.
Proof.
  induction s as [|c s IH]; intros cur.
  - simpl. now rewrite append_nil_r.
  - rewrite split_go_char. destruct (Ascii.eqb sep c) eqn:E.
    + apply Ascii.eqb_eq in E. subst c.
      rewrite join_cons by apply split_go_nonempty.
      rewrite IH. reflexivity.
    + rewrite IH, rev_cons, append_assoc. reflexivity.
Qed.

Lemma join_split (sep : ascii) (s : string) :
  PyStr.join (String sep "") (PyStr.split (String sep "") s) = s.
Proof. unfold PyStr.split. now rewrite join_split_go. Qed.

(** A string has the character [c] exactly when it contains the string of
    this one character. *)
Lemma has_char_lemma (c : ascii) (s : string) :
  PyStr.contains (String c "") s = true
  <-> exists before after, s = (before ++ String c after)%string.
Proof.
  induction s as [|a s IH]; simpl.
  - split; [discriminate|]. intros (before & after & H).
    destruct before; discriminate.
  - destruct (ascii_dec c a) as [->|Hne].
    + split; [|now destruct s]. intros _. exists "", s. reflexivity.
    + simpl. rewrite IH. split.
      * intros (before & after & ->). exists (String a before), after. reflexivity.
      * intros (before & after & H). destruct before as [|b before].
        -- simpl in H. injection H as H1 H2. congruence.
        -- simpl in H. injection H as H1 H2. now exists before, after.
Qed.

(** No piece of a splitting at a character has this character. *)
Lemma split_go_pieces (sep : ascii) (s : string) :
  forall cur piece,
    PyStr.contains (String sep "") (PyStr.rev cur) = false ->
    In piece (PyStr.split_go (String sep "") 0 cur s) ->
    PyStr.contains (String sep "") piece = false.
Proof.
  induction s as [|c s IH]; intros cur piece Hcur Hin.
  - simpl in Hin. destruct Hin as [<-|[]]. exact Hcur.
  - rewrite split_go_char in Hin. destruct (Ascii.eqb sep c) eqn:E.
    + destruct Hin as [<-|Hin]; [exact Hcur|].
      apply (IH "" piece); [reflexivity|exact Hin].
    + apply (IH (String c cur) piece); [|exact Hin].
      rewrite rev_cons.
      destruct (PyStr.contains (String sep "") (PyStr.rev cur ++ String c ""))
        eqn:Hc; [|reflexivity].
      apply has_char_lemma in Hc as (before & after & Hc).
      apply Ascii.eqb_neq in E.
      assert (Hin' : PyStr.contains (String sep "") (PyStr.rev cur) = true).
      { apply has_char_lemma.
        clear Hcur IH. revert before Hc.
        generalize (PyStr.rev cur) as t.
        induction t as [|a t IHt]; intros before Hc.
        - destruct before as [|b [|b' before]]; simpl in Hc; try discriminate.
          injection Hc as Hc. congruence.
        - destruct before as [|b before]; simpl in Hc.
          + injection Hc as -> _. exists "", t. reflexivity.
          + injection Hc as -> Hc.
            destruct (IHt before Hc) as (b1 & a1 & ->).
            exists (String b b1), a1. reflexivity. }
      congruence.
Qed.

Lemma split_pieces (sep : ascii) (s piece : string) :
  In piece (PyStr.split (String sep "") s) ->
  PyStr.contains (String sep "") piece = false.
Proof. apply split_go_pieces. reflexivity. Qed.

Lemma prefix_app_char (folder piece : string) (c : ascii) :
  prefix (folder ++ String c "") piece = true ->
  PyStr.contains (String c "") piece = true.
Proof.
  revert piece. induction folder as [|a folder IH]; intros piece H.
  - destruct piece as [|b piece]; [discriminate|].
    simpl in H |- *. destruct (ascii_dec c b); [now destruct piece|discriminate].
  - destruct piece as [|b piece]; [discriminate|].
    simpl in H. destruct (ascii_dec a b); [|discriminate].
    simpl. rewrite (IH piece H). apply orb_true_r.
Qed.

Lemma mem_In (x : string) (parts : list string) :
  PyStr.mem x parts = true <-> In x parts.
Proof.
  unfold PyStr.mem. rewrite existsb_exists. split.
  - intros (y & Hy & E). apply String.eqb_eq in E. now subst.
  - intros H. exists x. split; [exact H|apply String.eqb_refl].
Qed.

End Strings.

(** ** The scope resolver *)

Section Resolver.

Lemma index_of_mem (x : string) (parts : list string) :
  PyStr.mem x parts = false -> PyStr.index x parts = None.
Proof.
  unfold PyStr.mem. induction parts as [|p parts IH]; simpl; [reflexivity|].
  rewrite String.eqb_sym. destruct (String.eqb p x); simpl; [discriminate|].
  intros H. now rewrite IH.
Qed.

Lemma index_None (x : string) (parts : list string) :
  ~ In x parts -> PyStr.index x parts = None.
Proof.
  intros H. apply index_of_mem.
  destruct (PyStr.mem x parts) eqn:E; [|reflexivity].
  apply mem_In in E. contradiction.
Qed.

(** The first [sites] found by walking the segments is the one [index]
    gives, and the two slices are the segments on either side of the
    segment that follows it. *)
Lemma locate_sites_index (parts : list string) :
  forall before,
    locate_sites before parts
    = match PyStr.index "sites" parts with
      | Some i => Some (before ++ firstn (i + 2) parts, skipn (i + 2) parts)
      | None => None
      end.
Proof.
  induction parts as [|p parts IH]; intros before; simpl; [reflexivity|].
  destruct (String.eqb p "sites").
  - destruct parts as [|name remaining]; reflexivity.
  - rewrite IH. destruct (PyStr.index "sites" parts) as [i|]; simpl; [|reflexivity].
    now rewrite <- app_assoc.
Qed.

Lemma locate_sites_found (before after : list string) :
  ~ In "sites" before ->
  forall acc,
    locate_sites acc (before ++ "sites" :: after)
    = Some (acc ++ before ++ "sites" :: firstn 1 after, skipn 1 after).
Proof.
  induction before as [|p before IH]; intros Hn acc; simpl.
  - destruct after; reflexivity.
  - destruct (String.eqb p "sites") eqn:E.
    + apply String.eqb_eq in E. subst p. exfalso. apply Hn. now left.
    + rewrite IH by (intros H; apply Hn; now right).
      now rewrite <- app_assoc.
Qed.

Lemma locate_sites_none (segments : list string) :
  ~ In "sites" segments -> forall acc, locate_sites acc segments = None.
Proof.
  intros H acc. rewrite locate_sites_index, index_None; [reflexivity|exact H].
Qed.

(** The body of the loop gives the target of the segments of the trimmed
    string. *)
Lemma extract_one_spec (s : string) :
  extract_one s = targets_of [spec_target (PyStr.split "/" (PyStr.strip s))].
Proof.
  unfold extract_one, spec_target, targets_of. simpl flat_map.
  rewrite locate_sites_index.
  destruct (PyStr.mem "sites" (PyStr.split "/" (PyStr.strip s))) eqn:Hm.
  - destruct (PyStr.index "sites" _) as [i|]; [|reflexivity].
    simpl app. destruct (skipn (i + 2) _) as [|first [|second rest]]; reflexivity.
  - now rewrite (index_of_mem _ _ Hm).
Qed.

Lemma prefix_append (s t : string) : prefix s (s ++ t) = true.
Proof.
  induction s as [|c s IH]; simpl; [now destruct t|].
  destruct (ascii_dec c c); [exact IH|contradiction].
Qed.

Lemma join_prefix (sep : string) (l1 l2 : list string) :
  prefix (PyStr.join sep l1) (PyStr.join sep (l1 ++ l2)) = true.
Proof.
  induction l1 as [|x l1 IH].
  - simpl. now destruct (PyStr.join sep l2).
  - destruct l1 as [|y l1].
    + destruct l2 as [|z l2]; simpl.
      * rewrite <- (append_nil_r x) at 2. apply prefix_append.
      * apply prefix_append.
    + change (PyStr.join sep (x :: y :: l1))
        with (x ++ sep ++ PyStr.join sep (y :: l1))%string.
      change (PyStr.join sep ((x :: y :: l1) ++ l2))
        with (x ++ sep ++ PyStr.join sep ((y :: l1) ++ l2))%string.
      revert IH. generalize (PyStr.join sep (y :: l1)) as a.
      generalize (PyStr.join sep ((y :: l1) ++ l2)) as b.
      intros b a IH. clear -IH.
      induction x as [|c x IHx]; simpl.
      * induction sep as [|c sep IHs]; simpl; [exact IH|].
        destruct (ascii_dec c c); [exact IHs|contradiction].
      * destruct (ascii_dec c c); [exact IHx|contradiction].
Qed.

(** C4, amended by the trimming.  The resolver gives, in order, one target
    for each string whose segments, once the surrounding whitespace is
    removed and the string is cut at [/], hold a segment [sites], and
    nothing for the other strings.  With no [sites] before it, the root URL
    joins the segments up to the one after [sites]: it is a prefix of the
    trimmed string; the next segment, percent-decoded, is the drive name;
    the segments after it, percent-decoded and joined by [/], are the
    folder path, absent when there is none. *)
Theorem resolver_targets :
  (forall site_urls,
      _extract_site_and_drive_info site_urls
      = targets_of
          (map (fun s => spec_target (PyStr.split "/" (PyStr.strip s))) site_urls))
  /\ (forall segments, ~ In "sites" segments -> spec_target segments = None)
  /\ (forall before site_name,
         ~ In "sites" before ->
         spec_target (before ++ ["sites"; site_name])
         = Some {| url := PyStr.join "/" (before ++ ["sites"; site_name]);
                   drive_name := None;
                   folder_path := None |})
  /\ (forall before site_name drive folders,
         ~ In "sites" before ->
         spec_target (before ++ "sites" :: site_name :: drive :: folders)
         = Some {| url := PyStr.join "/" (before ++ ["sites"; site_name]);
                   drive_name := Some (PyStr.unquote drive);
                   folder_path :=
                     match folders with
                     | [] => None
                     | _ :: _ =>
                         Some (PyStr.join "/" (map PyStr.unquote folders))
                     end |})
  /\ (forall s t,
         In t (_extract_site_and_drive_info [s]) ->
         prefix t.(url) (PyStr.strip s) = true)
  /\ _extract_site_and_drive_info
       ["https://host/sites/A/Shared Documents/sub folder"]
     = [ {| url := "https://host/sites/A";
            drive_name := Some "Shared Documents";
            folder_path := Some "sub folder" |} ].
Proof.
  split; [|split; [|split; [|split; [|split]]]].
  - intros site_urls. unfold _extract_site_and_drive_info, targets_of.
    induction site_urls as [|s site_urls IH]; [reflexivity|].
    simpl. rewrite IH, extract_one_spec. unfold targets_of. simpl.
    now rewrite app_nil_r.
  - intros segments H. unfold spec_target. now rewrite locate_sites_none.
  - intros before site_name H. unfold spec_target.
    now rewrite locate_sites_found.
  - intros before site_name drive folders H. unfold spec_target.
    rewrite locate_sites_found by exact H. simpl.
    destruct folders; reflexivity.
  - intros s t. unfold _extract_site_and_drive_info. simpl. rewrite app_nil_r.
    rewrite extract_one_spec. unfold targets_of, spec_target. simpl.
    rewrite locate_sites_index.
    destruct (PyStr.index "sites" _) as [i|]; [|contradiction].
    rewrite app_nil_r. intros [<-|[]]. simpl.
    rewrite <- (join_split "/" (PyStr.strip s)) at 2.
    rewrite <- (firstn_skipn (i + 2) (PyStr.split "/" (PyStr.strip s))) at 2.
    apply join_prefix.
  - reflexivity.
Qed.

(** C9, amended by the trimming and by the choice of the first [sites].
    When the first segment [sites] of the trimmed string is its last
    segment, the resolver gives one target: its root URL is the whole
    trimmed string, and it has neither drive name nor folder path. *)
Theorem resolver_sites_last (s : string) (before : list string) :
  PyStr.split "/" (PyStr.strip s) = before ++ ["sites"] ->
  ~ In "sites" before ->
  _extract_site_and_drive_info [s]
  = [ {| url := PyStr.strip s; drive_name := None; folder_path := None |} ].
Proof.
  intros Hs Hn. unfold _extract_site_and_drive_info. simpl. rewrite app_nil_r.
  rewrite extract_one_spec. unfold targets_of, spec_target. simpl.
  rewrite Hs, locate_sites_found by exact Hn. simpl.
  rewrite <- Hs, join_split. reflexivity.
Qed.

End Resolver.

(** ** The filter by folder *)

Section FolderFilter.

Lemma existsb_ext_in {X : Type} (f g : X -> bool) (l : list X) :
  (forall x, In x l -> f x = g x) -> existsb f l = existsb g l.
Proof.
  induction l as [|x l IH]; intros H; simpl; [reflexivity|].
  rewrite (H x) by now left.
  rewrite IH; [reflexivity|]. intros y Hy. apply H. now right.
Qed.

(** A piece of the parent path never starts with the folder followed by
    [/], so the filter keeps an item exactly when the folder path is one of
    the pieces of its parent path below the root. *)
Lemma in_folder_pieces (folder below_root : string) (item : DriveItem) :
  nth_error (PyStr.split "root:/" item.(parent_reference_path)) 1
  = Some below_root ->
  in_folder folder item
  = Return (PyStr.mem folder (PyStr.split "/" below_root)).
Proof.
  intros H. unfold in_folder, PyStr.mem. rewrite H. f_equal.
  apply existsb_ext_in. intros piece Hin.
  apply (split_pieces "/") in Hin.
  unfold PyStr.startswith.
  destruct (prefix (folder ++ "/") piece) eqn:Hp.
  - apply prefix_app_char in Hp. congruence.
  - rewrite orb_false_r. apply String.eqb_sym.
Qed.

(** A folder path of several segments is no piece of any path. *)
Lemma in_folder_nested (folder : string) (item : DriveItem) :
  PyStr.contains "/" folder = true ->
  in_folder folder item <> Return true.
Proof.
  intros Hc H.
  destruct (nth_error (PyStr.split "root:/" item.(parent_reference_path)) 1)
    as [below_root|] eqn:Hn.
  - rewrite (in_folder_pieces folder below_root item Hn) in H.
    injection H as H. apply mem_In in H.
    apply (split_pieces "/") in H. congruence.
  - unfold in_folder in H. rewrite Hn in H. discriminate.
Qed.

Lemma filter_result_none {X : Type} (cond : X -> result bool) (l kept : list X) :
  (forall x, cond x <> Return true) ->
  filter_result cond l = Return kept -> kept = [].
Proof.
  intros Hc. revert kept. induction l as [|x l IH]; simpl; intros kept H.
  - now injection H as <-.
  - destruct (cond x) as [[|]|] eqn:E; [now apply Hc in E| |discriminate].
    destruct (filter_result cond l) as [kept'|]; [|discriminate].
    injection H as <-. now apply IH.
Qed.

(** With a folder path of several segments the filter keeps no item. *)
Lemma filter_by_folder_nested (folder : string) (driveitems kept : list DriveItem) :
  PyStr.contains "/" folder = true ->
  filter_by_folder (Some folder) driveitems = Return kept ->
  kept = [].
Proof.
  intros Hc. unfold filter_by_folder.
  destruct (truthy (Some folder)) eqn:Ht.
  - apply filter_result_none. intros item. now apply in_folder_nested.
  - simpl in Ht. destruct (String.eqb folder "") eqn:E; [|discriminate].
    apply String.eqb_eq in E. subst folder. discriminate.
Qed.

(** C1, where the code departs from it.  The item [nested_item] lies in the
    folder [test/nested]: its parent path below the root is the folder path
    itself.  The filter for this folder path drops it, so does the
    traversal of a site whose drive lists it, and the run for this scope
    yields one empty batch.  The filter keeps no item at all when the folder
    path has several segments. *)
Theorem folder_filter_drops_nested_item :
  (forall folder driveitems kept,
      PyStr.contains "/" folder = true ->
      filter_by_folder (Some folder) driveitems = Return kept ->
      kept = [])
  /\ nth_error (PyStr.split "root:/" nested_item.(parent_reference_path)) 1
  = Some "test/nested"
  /\ filter_by_folder (Some "test/nested") [nested_item] = Return []
  /\ _fetch_driveitems example_missing_credential_text
       (example_connector 2 ["https://host/sites/A/Shared Documents/test/nested"])
       {| url := "https://host/sites/A";
          drive_name := Some "Shared Documents";
          folder_path := Some "test/nested" |}
       None None
     = Return []
  /\ load_from_state 1000 example_extract_file_text
       example_missing_credential_text
       (example_connector 2 ["https://host/sites/A/Shared Documents/test/nested"])
     = {| yielded := [[]]; failure := None |}.
Proof.
  split; [exact filter_by_folder_nested|].
  repeat split; reflexivity.
Qed.

End FolderFilter.

(** ** Examples *)

Example split_slash :
  PyStr.split "/" "https://host/sites/A/"
  = ["https:"; ""; "host"; "sites"; "A"; ""].
Proof. reflexivity. Qed.

Example split_marker :
  PyStr.split "root:/" "/drives/b1/root:/a/root:/b" = ["/drives/b1/"; "a/"; "b"].
Proof. reflexivity. Qed.

Example strip_both :
  PyStr.strip
    (PyStr.bytes [32; 9; 194; 160] ++ "a b" ++ PyStr.bytes [10; 226; 128; 168])%string
  = "a b".
Proof. reflexivity. Qed.

Example int_examples :
  map PyStr.int [" 7 "; "+1_000"; "-12"; "007"; ""; "1__0"; "_1"; "1_"; "7.5"]
  = [Some 7%Z; Some 1000%Z; Some (-12)%Z; Some 7%Z; None; None; None; None; None].
Proof. reflexivity. Qed.

Example unquote_examples :
  map PyStr.unquote ["Shared%20Documents"; "sub folder"; "100%"; "%zz%41"; "a%2Fb"]
  = ["Shared Documents"; "sub folder"; "100%"; "%zzA"; "a/b"].
Proof. reflexivity. Qed.

(** A string without a segment [sites] is dropped. *)
Example resolver_drops_teams :
  _extract_site_and_drive_info ["https://host/teams/x"] = [].
Proof. reflexivity. Qed.

(** A 429 at every call: three sleeps of 5, 10 and 20 seconds, four calls,
    and the last failure is raised. *)
Example always_throttled_run :
  _sleep_and_retry always_throttled "get_content" default_max_retries
  = ([ExecuteQuery; Sleep 5; ExecuteQuery; Sleep 10; ExecuteQuery; Sleep 20;
      ExecuteQuery],
     rate_limit_failure 429 []).
Proof. reflexivity. Qed.

(** A run without configured target and without credential fails. *)
Example enumeration_without_credential :
  load_from_state 1000 example_extract_file_text example_missing_credential_text
    (init 2 [])
  = {| yielded := [];
       failure := Some (ConnectorMissingCredentialError "Sharepoint") |}.
Proof. reflexivity. Qed.

(** ** Witnesses and counterexamples *)


Lemma sleep_and_retry_no_response_witness :
  _sleep_and_retry disconnected_query "get_content" 3
  = ([ExecuteQuery], Raise (ClientRequestException None "connection aborted")).
Proof.
  apply (sleep_and_retry_no_response disconnected_query "get_content" 3
           "connection aborted").
  - lia.
  - reflexivity.
Defined.


Lemma missing_credential_swallowed_witness :
  load_from_state 1000 example_extract_file_text example_missing_credential_text
    (init 2 ["https://host/sites/A"])
  = {| yielded := [[]]; failure := None |}.
Proof.
  apply (missing_credential_swallowed 1000 example_extract_file_text
           example_missing_credential_text
           (init 2 ["https://host/sites/A"]) None None).
  - reflexivity.
  - discriminate.
  - reflexivity.
Defined.


Lemma resolver_sites_last_witness :
  _extract_site_and_drive_info ["https://host/sites"]
  = [ {| url := "https://host/sites"; drive_name := None; folder_path := None |} ].
Proof.
  apply (resolver_sites_last "https://host/sites" ["https:"; ""; "host"]).
  - reflexivity.
  - simpl. intros [H|[H|[H|[]]]]; discriminate.
Defined.

(** C4 as stated fails on strings with surrounding whitespace: the root URL
    of [" https://host/sites/A"] is no prefix of this string, and
    ["https://host/sites "], none of whose segments is [sites], is not
    dropped. *)
Lemma resolver_trims_counterexample :
  _extract_site_and_drive_info [" https://host/sites/A"]
  = [ {| url := "https://host/sites/A"; drive_name := None; folder_path := None |} ]
  /\ prefix "https://host/sites/A" " https://host/sites/A" = false
  /\ PyStr.mem "sites" (PyStr.split "/" "https://host/sites ") = false
  /\ _extract_site_and_drive_info ["https://host/sites "]
     = [ {| url := "https://host/sites"; drive_name := None; folder_path := None |} ].
Proof. repeat split; reflexivity. Qed.

(** C9 as stated fails on two strings whose last segment is [sites]: the
    root URL of [" https://host/sites"] is not the whole string, and
    ["https://host/sites/A/sites"] gets the drive name [sites]. *)
Lemma resolver_sites_last_counterexample :
  last (PyStr.split "/" " https://host/sites") "" = "sites"
  /\ _extract_site_and_drive_info [" https://host/sites"]
     <> [ {| url := " https://host/sites";
             drive_name := None; folder_path := None |} ]
  /\ last (PyStr.split "/" "https://host/sites/A/sites") "" = "sites"
  /\ _extract_site_and_drive_info ["https://host/sites/A/sites"]
     = [ {| url := "https://host/sites/A";
            drive_name := Some "sites"; folder_path := None |} ].
Proof. repeat split; try reflexivity. discriminate. Qed.

(** * Further properties of the connector *)

(** ** Bounds of the retry wrapper *)

Section RetryBounds.

Context {A : Type}.
Variable query_obj : query A.
Variable max_retries : Z.

(** An attempt either ends the loop after its request, or sleeps a time
    that is not negative and leaves the rest to the next attempts. *)
Lemma retry_loop_shape (attempt : nat) (rest : list nat) :
  (exists r, retry_loop query_obj max_retries (attempt :: rest)
             = ([ExecuteQuery], r))
  \/ (exists d,
         (0 <= d)%Z /\ (Z.of_nat attempt < max_retries)%Z
         /\ retry_loop query_obj max_retries (attempt :: rest)
            = (ExecuteQuery :: Sleep d
                 :: fst (retry_loop query_obj max_retries rest),
               snd (retry_loop query_obj max_retries rest))).
Proof.
  simpl. destruct (query_obj attempt) as [v|e]; [left; eexists; reflexivity|].
  destruct e as [[r|] message| | | | | | |]; try (left; eexists; reflexivity).
  destruct (rate_limit_status r && (Z.of_nat attempt <? max_retries)%Z) eqn:E;
    [|left; eexists; reflexivity].
  apply andb_true_iff in E as [_ E]. apply Z.ltb_lt in E.
  unfold sleep_time_of.
  assert (Hd : forall d,
             (exists r0,
                 bind (emit ExecuteQuery)
                   (fun _ => bind (ret d)
                      (fun sleep_time => bind (time_sleep sleep_time)
                         (fun _ => retry_loop query_obj max_retries rest)))
                 = ([ExecuteQuery], r0))
             \/ (exists d0,
                    (0 <= d0)%Z /\ (Z.of_nat attempt < max_retries)%Z
                    /\ bind (emit ExecuteQuery)
                         (fun _ => bind (ret d)
                            (fun sleep_time => bind (time_sleep sleep_time)
                               (fun _ => retry_loop query_obj max_retries rest)))
                       = (ExecuteQuery :: Sleep d0
                            :: fst (retry_loop query_obj max_retries rest),
                          snd (retry_loop query_obj max_retries rest)))).
  { intros d. unfold time_sleep. cbn [bind emit ret app].
    destruct (d <? 0)%Z eqn:Ed.
    - left. eexists; reflexivity.
    - right. exists d. apply Z.ltb_ge in Ed. repeat split; try assumption.
      cbn [bind emit ret app].
      destruct (retry_loop query_obj max_retries rest) as [t res].
      now destruct res. }
  destruct (headers_get "Retry-After" (headers r)) as [s|]; [|apply Hd].
  destruct (String.eqb s ""); [apply Hd|].
  destruct (PyStr.int s) as [n|]; [apply Hd|left; eexists; reflexivity].
Qed.

Lemma retry_loop_bounds (n : nat) :
  forall a,
    1 <= n ->
    Z.of_nat (a + n) = (max_retries + 1)%Z ->
    1 <= calls (fst (retry_loop query_obj max_retries (seq a n))) <= n
    /\ List.length (sleeps (fst (retry_loop query_obj max_retries (seq a n)))) + 1
       = calls (fst (retry_loop query_obj max_retries (seq a n)))
    /\ Forall (fun d => (0 <= d)%Z)
         (sleeps (fst (retry_loop query_obj max_retries (seq a n)))).
Proof.
  induction n as [|n IH]; intros a Hn Ha; [lia|].
  change (seq a (S n)) with (a :: seq (S a) n).
  destruct (retry_loop_shape a (seq (S a) n)) as [[r ->]|(d & Hd & Hlt & ->)].
  - simpl. repeat split; try lia. constructor.
  - assert (Hn' : 1 <= n) by lia.
    destruct (IH (S a) Hn') as (Hc & Hs & Hf); [lia|].
    cbn [fst calls sleeps List.length]. repeat split; try lia.
    now constructor.
Qed.


(** X2. With a negative [max_retries] the wrapper sends no request at all
    and returns [None]. *)
Theorem sleep_and_retry_negative (method_name : string) :
  (max_retries < 0)%Z ->
  _sleep_and_retry query_obj method_name max_retries = ([], Return None).
Proof.
  intros Hm. unfold _sleep_and_retry.
  replace (Z.to_nat (max_retries + 1)) with 0 by lia. reflexivity.
Qed.


End RetryBounds.

(** X4. The backoff starts at 5 seconds, doubles to 10 and 20, is 30 from
    the attempt of index 3 on, and never decreases. *)
Theorem backoff_values :
  backoff 0 = 5%Z /\ backoff 1 = 10%Z /\ backoff 2 = 20%Z
  /\ (forall attempt, 3 <= attempt -> backoff attempt = 30%Z)
  /\ (forall attempt, (5 <= backoff attempt <= 30)%Z)
  /\ (forall i j, i <= j -> (backoff i <= backoff j)%Z).
Proof.
  assert (Hpow : forall i j, i <= j -> (2 ^ Z.of_nat i <= 2 ^ Z.of_nat j)%Z).
  { intros i j H. apply Z.pow_le_mono_r; lia. }
  repeat split; try reflexivity.
  - intros attempt H. unfold backoff.
    pose proof (Hpow 3 attempt H) as Hp. change (2 ^ Z.of_nat 3)%Z with 8%Z in Hp.
    lia.
  - unfold backoff. pose proof (Hpow 0 attempt (Nat.le_0_l _)) as Hp.
    change (2 ^ Z.of_nat 0)%Z with 1%Z in Hp. lia.
  - unfold backoff. lia.
  - intros i j H. unfold backoff. pose proof (Hpow i j H). lia.
Qed.

(** ** The documents of the converter *)

(** X5. A document returned by the converter carries the identifier and the
    name of the item, the source [SHAREPOINT], its date of modification,
    the label under the key "drive" as only metadata, the last modifier as
    only owner, and one section, with the URL of the item and the text
    extracted from the content that the retrieval returned; and the size of
    the item, when known, does not exceed the threshold. *)
Theorem converter_document_fields (SHAREPOINT_CONNECTOR_SIZE_THRESHOLD : Z)
  (extract_file_text : string -> string -> string)
  (driveitem : DriveItem) (drive_name : string) (doc : Document) :
  snd (_convert_driveitem_to_document SHAREPOINT_CONNECTOR_SIZE_THRESHOLD
         extract_file_text driveitem drive_name)
  = Return (Some doc) ->
  doc.(id) = driveitem.(item_id)
  /\ doc.(semantic_identifier) = driveitem.(name)
  /\ doc.(source) = SHAREPOINT
  /\ doc.(doc_updated_at) = driveitem.(last_modified_datetime)
  /\ doc.(metadata) = [("drive", drive_name)]
  /\ doc.(primary_owners) = [driveitem.(last_modified_by)]
  /\ (exists content,
         snd (_sleep_and_retry driveitem.(get_content) "get_content"
                default_max_retries)
         = Return (Some content)
         /\ doc.(sections)
            = [ {| link := driveitem.(web_url);
                   text := extract_file_text content.(value) driveitem.(name) |} ])
  /\ (forall n, known_size driveitem = Some n ->
                (n <= SHAREPOINT_CONNECTOR_SIZE_THRESHOLD)%Z).
Proof.
  intros H.
  assert (Hle : forall n, known_size driveitem = Some n ->
                          (n <= SHAREPOINT_CONNECTOR_SIZE_THRESHOLD)%Z).
  { intros n Hn.
    destruct (Z.lt_ge_cases SHAREPOINT_CONNECTOR_SIZE_THRESHOLD n) as [Hlt|Hge];
      [|exact Hge].
    rewrite (convert_exceeding _ extract_file_text driveitem drive_name n Hn Hlt)
      in H.
    discriminate. }
  rewrite (convert_proceeds _ _ driveitem drive_name Hle) in H. simpl in H.
  destruct (snd (_sleep_and_retry (get_content driveitem) "get_content"
                   default_max_retries)) as [[content|]|e];
    try discriminate.
  injection H as <-. simpl. repeat split; try assumption.
  - destruct (last_modified_by driveitem). reflexivity.
  - exists content. split; reflexivity.
Qed.

(** ** More on the traversal *)

Section TraversalMore.

Variable missing_credential_text : string -> string.

Local Abbreviation fetch := (_fetch_driveitems missing_credential_text).

Lemma fetch_with_drives (self : SharepointConnector) (sd : SiteDescriptor)
  (start end_ : option Z) (client : GraphClient) (drives : list Drive) :
  self.(_graph_client) = Some client ->
  client.(site_drives) sd.(url) = Return drives ->
  fetch self sd start end_
  = Return (process_drives sd start end_ (filter_drives sd.(drive_name) drives)).
Proof.
  intros Hc Hs. unfold _fetch_driveitems, fetch_driveitems_body, graph_client.
  rewrite Hc, Hs.
  destruct (truthy (drive_name sd)), (filter_drives (drive_name sd) drives);
    reflexivity.
Qed.

(** X6. Once the drives of the site are listed, the traversal does not
    fail: its pairs are exactly those of the drives kept by the filter by
    name whose listing and filters go through, so that a drive that fails
    takes nothing away from the others. *)
Theorem traversal_isolates_drives (self : SharepointConnector)
  (sd : SiteDescriptor) (start end_ : option Z) (client : GraphClient)
  (drives : list Drive) :
  self.(_graph_client) = Some client ->
  client.(site_drives) sd.(url) = Return drives ->
  exists pairs,
    fetch self sd start end_ = Return pairs
    /\ forall pair,
        In pair pairs
        <-> exists drive listed,
              In drive (filter_drives sd.(drive_name) drives)
              /\ process_drive sd start end_ drive = Return listed
              /\ In pair listed.
Proof.
  intros Hc Hs. eexists. split; [exact (fetch_with_drives _ _ _ _ client drives Hc Hs)|].
  intros pair. unfold process_drives. rewrite in_flat_map. split.
  - intros (drive & Hd & Hp).
    destruct (process_drive sd start end_ drive) as [listed|] eqn:E;
      [|contradiction].
    now exists drive, listed.
  - intros (drive & listed & Hd & Hp & Hin). exists drive.
    rewrite Hp. now split.
Qed.

(** X7. For a target without drive name and without folder path, and
    without time window, the traversal returns the items of every drive of
    the site whose listing succeeds, in the order of the drives and then of
    the listing, each with the library name of its drive. *)
Theorem traversal_lists_everything (self : SharepointConnector)
  (site_url : string) (client : GraphClient) (drives : list Drive) :
  self.(_graph_client) = Some client ->
  client.(site_drives) site_url = Return drives ->
  fetch self {| url := site_url; drive_name := None; folder_path := None |}
    None None
  = Return (flat_map listed_pairs drives).
Proof.
  intros Hc Hs.
  rewrite (fetch_with_drives self
             {| url := site_url; drive_name := None; folder_path := None |}
             None None client drives Hc Hs).
  f_equal. unfold process_drives. simpl filter_drives.
  apply flat_map_ext. intros drive.
  unfold process_drive, listed_pairs. simpl.
  destruct (get_files drive []); reflexivity.
Qed.

(** X8. No pair of the traversal is labelled "Documents". *)
Theorem traversal_never_labels_documents (self : SharepointConnector)
  (sd : SiteDescriptor) (start end_ : option Z)
  (pairs : list (DriveItem * string)) (item : DriveItem) (label : string) :
  fetch self sd start end_ = Return pairs ->
  In (item, label) pairs ->
  label <> "Documents".
Proof.
  intros Hf Hin.
  destruct (fetch_driveitems_In _ _ _ _ _ _ _ _ Hf Hin)
    as (client & drives & drive & listed & _ & _ & _ & _ & _ & ->).
  destruct (library_name_cases drive) as [[_ ->]|[Hn ->]];
    [discriminate|exact Hn].
Qed.

(** A string that does not contain the separator is its only piece. *)
Lemma split_go_without_sep (sep s : string) :
  forall cur,
    PyStr.contains sep s = false ->
    PyStr.split_go sep 0 cur s = [(PyStr.rev cur ++ s)%string].
Proof.
  induction s as [|c s IH]; intros cur H.
  - simpl. now rewrite append_nil_r.
  - cbn [PyStr.contains] in H. apply orb_false_iff in H as [Hp Hc].
    cbn [PyStr.split_go]. rewrite Hp, (IH _ Hc), rev_cons, append_assoc.
    reflexivity.
Qed.

(** A string that contains the separator has at least two pieces. *)
Lemma split_go_with_sep (sep s : string) :
  sep <> "" ->
  forall cur,
    PyStr.contains sep s = true ->
    exists first second others,
      PyStr.split_go sep 0 cur s = first :: second :: others.
Proof.
  intros Hsep. induction s as [|c s IH]; intros cur H.
  - destruct sep; [contradiction|discriminate].
  - cbn [PyStr.contains] in H. cbn [PyStr.split_go].
    destruct (prefix sep (String c s)) eqn:Hp.
    + destruct (PyStr.split_go sep (String.length sep - 1) "" s)
        as [|second others] eqn:E.
      * now apply split_go_nonempty in E.
      * now exists (PyStr.rev cur), second, others.
    + simpl in H. now apply IH.
Qed.

Lemma filter_result_raises {X : Type} (cond : X -> result bool) (l : list X)
  (x : X) (e : exn) :
  In x l -> cond x = Raise e ->
  (forall y e', cond y = Raise e' -> e' = e) ->
  filter_result cond l = Raise e.
Proof.
  intros Hin Hx Hall. induction l as [|y l IH]; [contradiction|].
  simpl. destruct (cond y) as [keep|e'] eqn:Ey.
  - destruct Hin as [->|Hin]; [congruence|]. now rewrite (IH Hin).
  - f_equal. now apply (Hall y).
Qed.

Lemma in_folder_unmarked (folder : string) (item : DriveItem) :
  PyStr.contains "root:/" item.(parent_reference_path) = false ->
  in_folder folder item = Raise (IndexError "list index out of range").
Proof.
  intros H. unfold in_folder, PyStr.split.
  now rewrite (split_go_without_sep _ _ _ H).
Qed.

Lemma in_folder_raises (folder : string) (item : DriveItem) (e : exn) :
  in_folder folder item = Raise e ->
  e = IndexError "list index out of range".
Proof.
  unfold in_folder.
  destruct (nth_error _ 1); [discriminate|]. now intros [= <-].
Qed.

(** X9. With a folder path, a drive that lists an item whose parent path
    does not contain [root:/] gives nothing: the filter fails with an
    [IndexError] for the whole drive, which is skipped, whatever its other
    items are. *)
Theorem unmarked_path_drops_drive (sd : SiteDescriptor) (folder : string)
  (start end_ : option Z) (drive : Drive) (listed : list DriveItem)
  (item : DriveItem) (before after : list Drive) :
  sd.(folder_path) = Some folder ->
  folder <> "" ->
  drive.(get_files) (PyStr.split "/" folder) = Return listed ->
  In item listed ->
  PyStr.contains "root:/" item.(parent_reference_path) = false ->
  process_drive sd start end_ drive
  = Raise (IndexError "list index out of range")
  /\ process_drives sd start end_ (before ++ drive :: after)
     = process_drives sd start end_ (before ++ after).
Proof.
  intros Hf Hne Hg Hin Hm.
  assert (Hp : process_drive sd start end_ drive
               = Raise (IndexError "list index out of range")).
  { unfold process_drive, folder_parts, filter_by_folder.
    rewrite Hf, (truthy_Some folder Hne), Hg.
    rewrite (filter_result_raises (in_folder folder) listed item
               (IndexError "list index out of range") Hin);
      [reflexivity|now apply in_folder_unmarked|].
    intros y e'. apply in_folder_raises. }
  split; [exact Hp|].
  unfold process_drives. rewrite !flat_map_app. simpl. now rewrite Hp.
Qed.

Lemma filter_result_total {X : Type} (cond : X -> result bool)
  (keep : X -> bool) (l : list X) :
  (forall x, In x l -> cond x = Return (keep x)) ->
  filter_result cond l = Return (filter keep l).
Proof.
  induction l as [|x l IH]; intros H; [reflexivity|].
  simpl. rewrite (H x) by now left.
  rewrite IH by (intros y Hy; apply H; now right).
  reflexivity.
Qed.

(** X10. When every listed item has [root:/] in its parent path, the
    filter by a folder path keeps exactly the items one of whose path
    pieces below the root is the folder path itself, at any depth, in the
    order of the listing. *)
Theorem folder_filter_keeps_matching_pieces (folder : string)
  (driveitems : list DriveItem) :
  folder <> "" ->
  Forall
    (fun item => PyStr.contains "root:/" item.(parent_reference_path) = true)
    driveitems ->
  filter_by_folder (Some folder) driveitems
  = Return (filter (fun item => PyStr.mem folder (path_pieces item)) driveitems).
Proof.
  intros Hne Hall. unfold filter_by_folder. rewrite (truthy_Some folder Hne).
  apply filter_result_total. intros item Hin.
  rewrite Forall_forall in Hall. specialize (Hall item Hin).
  assert (Hsep : "root:/" <> "") by discriminate.
  destruct (split_go_with_sep "root:/" _ Hsep "" Hall)
    as (first & second & others & E).
  assert (Hn : nth_error (PyStr.split "root:/" item.(parent_reference_path)) 1
               = Some second)
    by (unfold PyStr.split; now rewrite E).
  rewrite (in_folder_pieces folder second item Hn).
  unfold path_pieces. now rewrite Hn.
Qed.

(** X11. The traversal fails only with a failure whose text names a 403, a
    404 or an invalid client, and which comes from the missing credential
    or from the listing of the drives of the site: never from a drive. *)
Theorem traversal_raises_only_fatal (self : SharepointConnector)
  (sd : SiteDescriptor) (start end_ : option Z) (e : exn) :
  fetch self sd start end_ = Raise e
  <-> fatal_site_error (str missing_credential_text e) = true
      /\ ((self.(_graph_client) = None
           /\ e = ConnectorMissingCredentialError "Sharepoint")
          \/ (exists client,
                 self.(_graph_client) = Some client
                 /\ client.(site_drives) sd.(url) = Raise e)).
Proof.
  split.
  - intros H. apply fetch_driveitems_raises_fatal in H as [Hb Hf].
    split; [exact Hf|].
    unfold fetch_driveitems_body, graph_client in Hb.
    destruct (_graph_client self) as [client|].
    + right. exists client. split; [reflexivity|].
      destruct (site_drives client (url sd)) as [drives|x]; [|congruence].
      destruct (truthy (drive_name sd)), (filter_drives (drive_name sd) drives);
        discriminate.
    + left. split; [reflexivity|congruence].
  - intros [Hf [[Hc ->]|(client & Hc & Hs)]].
    + apply fetch_driveitems_fatal; [|exact Hf].
      now apply fetch_body_missing_credential.
    + apply fetch_driveitems_fatal; [|exact Hf].
      now apply (fetch_body_site_failure _ _ _ _ client).
Qed.

End TraversalMore.

(** ** The enumeration of the sites *)

Section Enumeration.

Lemma handle_paginated_pages (sites : SitesWithRoot) :
  Forall (fun page => page <> []) (pages_of sites) ->
  _handle_paginated_sites sites
  = match next_failure sites with
    | None => Return (concat (pages_of sites))
    | Some e => Raise e
    end.
Proof.
  induction sites as [page|page next IH|page e]; intros H;
    inversion H as [|p ps Hp Hps]; subst.
  - destruct page; [contradiction|]. simpl. now rewrite app_nil_r.
  - destruct page as [|site page]; [contradiction|].
    cbn [_handle_paginated_sites sites_bool current_page_of].
    rewrite (IH Hps). simpl.
    destruct (next_failure next); reflexivity.
  - destruct page; [contradiction|]. reflexivity.
Qed.

(** The enumeration over pages that are not empty. *)
Lemma handle_pages_fetch (self : SharepointConnector) (client : GraphClient)
  (sites : SitesWithRoot) :
  self.(_graph_client) = Some client ->
  client.(get_all_sites) = Return sites ->
  Forall (fun page => page <> []) (pages_of sites) ->
  _fetch_sites self
  = match next_failure sites with
    | None =>
        Return (map (fun site =>
                       {| url := site.(site_web_url);
                          drive_name := None;
                          folder_path := None |})
                  (concat (pages_of sites)))
    | Some e => Raise e
    end.
Proof.
  intros Hc Hs Hp. unfold _fetch_sites, graph_client. rewrite Hc, Hs.
  assert (Hb : sites_bool sites = true).
  { unfold sites_bool.
    destruct sites as [page|page next|page e]; simpl in *;
      inversion Hp; subst; now destruct page. }
  rewrite Hb. simpl. rewrite (handle_paginated_pages sites Hp).
  destruct (next_failure sites); reflexivity.
Qed.

(** X12. When no page of the listing of the sites is empty, the
    enumeration gives one target for each site of each page, in the order
    of the pages, with the URL of the site and neither drive name nor
    folder path; and when fetching a page fails, the enumeration fails with
    this failure and gives no target at all. *)
Theorem fetch_sites_pages (self : SharepointConnector) (client : GraphClient)
  (sites : SitesWithRoot) :
  self.(_graph_client) = Some client ->
  client.(get_all_sites) = Return sites ->
  Forall (fun page => page <> []) (pages_of sites) ->
  _fetch_sites self
  = match next_failure sites with
    | None =>
        Return (map (fun site =>
                       {| url := site.(site_web_url);
                          drive_name := None;
                          folder_path := None |})
                  (concat (pages_of sites)))
    | Some e => Raise e
    end.
Proof. exact (handle_pages_fetch self client sites). Qed.

Lemma handle_paginated_nonempty (sites : SitesWithRoot) (all : list Site) :
  sites_bool sites = true ->
  _handle_paginated_sites sites = Return all ->
  all <> [].
Proof.
  intros Hb H. destruct sites as [page|page next|page e];
    cbn [_handle_paginated_sites] in H; rewrite Hb in H;
    unfold sites_bool in Hb; simpl in Hb.
  - injection H as <-. now destruct page.
  - destruct (_handle_paginated_sites next); [|discriminate].
    injection H as <-. now destruct page.
  - discriminate.
Qed.

(** X13. When the enumeration of the sites succeeds it gives at least one
    target, and none of its targets has a drive name or a folder path. *)
Theorem fetch_sites_result (self : SharepointConnector)
  (descriptors : list SiteDescriptor) :
  _fetch_sites self = Return descriptors ->
  descriptors <> []
  /\ Forall (fun sd => sd.(drive_name) = None /\ sd.(folder_path) = None)
       descriptors.
Proof.
  unfold _fetch_sites.
  destruct (graph_client self) as [client|]; [|discriminate].
  destruct (get_all_sites client) as [sites|]; [|discriminate].
  destruct (sites_bool sites) eqn:Hb; [|discriminate]. simpl.
  destruct (_handle_paginated_sites sites) as [all|] eqn:Ha; [|discriminate].
  intros H. injection H as <-. split.
  - pose proof (handle_paginated_nonempty sites all Hb Ha).
    now destruct all.
  - apply Forall_forall. intros sd Hin.
    apply in_map_iff in Hin as (site & <- & _). now split.
Qed.

End Enumeration.

(** ** More on the runs *)

Section RunsMore.

Variable SHAREPOINT_CONNECTOR_SIZE_THRESHOLD : Z.
Variable extract_file_text : string -> string -> string.
Variable missing_credential_text : string -> string.

Local Abbreviation fetch := (_fetch_driveitems missing_credential_text).
Local Abbreviation convert :=
  (_convert_driveitem_to_document SHAREPOINT_CONNECTOR_SIZE_THRESHOLD
     extract_file_text).
Local Abbreviation run_sites :=
  (sites_loop SHAREPOINT_CONNECTOR_SIZE_THRESHOLD extract_file_text
     missing_credential_text).
Local Abbreviation run_items :=
  (items_loop SHAREPOINT_CONNECTOR_SIZE_THRESHOLD extract_file_text).
Local Abbreviation fetch_from_sharepoint :=
  (_fetch_from_sharepoint SHAREPOINT_CONNECTOR_SIZE_THRESHOLD extract_file_text
     missing_credential_text).

(** X14. Without configured target, a run fails before any batch when the
    credential is missing, when the listing of the sites fails, whatever
    the failure, when its first page holds no site, and when fetching a
    later page fails. *)
Theorem enumeration_failures_are_fatal (self : SharepointConnector)
  (start end_ : option Z) :
  self.(site_descriptors) = [] ->
  (self.(_graph_client) = None ->
   fetch_from_sharepoint self start end_
   = {| yielded := [];
        failure := Some (ConnectorMissingCredentialError "Sharepoint") |})
  /\ (forall client e,
         self.(_graph_client) = Some client ->
         client.(get_all_sites) = Raise e ->
         fetch_from_sharepoint self start end_
         = {| yielded := []; failure := Some e |})
  /\ (forall client sites,
         self.(_graph_client) = Some client ->
         client.(get_all_sites) = Return sites ->
         current_page_of sites = [] ->
         fetch_from_sharepoint self start end_
         = {| yielded := [];
              failure := Some (RuntimeError "No sites found in the tenant") |})
  /\ (forall client sites e,
         self.(_graph_client) = Some client ->
         client.(get_all_sites) = Return sites ->
         Forall (fun page => page <> []) (pages_of sites) ->
         next_failure sites = Some e ->
         fetch_from_sharepoint self start end_
         = {| yielded := []; failure := Some e |}).
Proof.
  intros Hd. repeat split.
  - intros Hc. apply run_enumeration_failure; [exact Hd|].
    now apply fetch_sites_missing_credential.
  - intros client e Hc Hs. apply run_enumeration_failure; [exact Hd|].
    unfold _fetch_sites, graph_client. now rewrite Hc, Hs.
  - intros client sites Hc Hs Hp. apply run_enumeration_failure; [exact Hd|].
    now apply (fetch_sites_no_sites self client sites).
  - intros client sites e Hc Hs Hp He.
    apply run_enumeration_failure; [exact Hd|].
    rewrite (handle_pages_fetch self client sites Hc Hs Hp), He. reflexivity.
Qed.

End RunsMore.

(** ** What every run yields *)

Section RunBatches.

Variable SHAREPOINT_CONNECTOR_SIZE_THRESHOLD : Z.
Variable extract_file_text : string -> string -> string.
Variable missing_credential_text : string -> string.

Local Abbreviation fetch := (_fetch_driveitems missing_credential_text).
Local Abbreviation convert :=
  (_convert_driveitem_to_document SHAREPOINT_CONNECTOR_SIZE_THRESHOLD
     extract_file_text).
Local Abbreviation run_sites :=
  (sites_loop SHAREPOINT_CONNECTOR_SIZE_THRESHOLD extract_file_text
     missing_credential_text).
Local Abbreviation run_items :=
  (items_loop SHAREPOINT_CONNECTOR_SIZE_THRESHOLD extract_file_text).
Local Abbreviation fetch_from_sharepoint :=
  (_fetch_from_sharepoint SHAREPOINT_CONNECTOR_SIZE_THRESHOLD extract_file_text
     missing_credential_text).
Local Abbreviation converted :=
  (converted_of_items SHAREPOINT_CONNECTOR_SIZE_THRESHOLD extract_file_text).
Local Abbreviation converted_all :=
  (converted_documents SHAREPOINT_CONNECTOR_SIZE_THRESHOLD extract_file_text
     missing_credential_text).

Lemma converted_cons (pair : DriveItem * string)
  (driveitems : list (DriveItem * string)) :
  converted (pair :: driveitems) = converted [pair] ++ converted driveitems.
Proof. unfold converted_of_items. simpl. now rewrite app_nil_r. Qed.

Lemma converted_single (driveitem : DriveItem) (drive_name : string) :
  converted [(driveitem, drive_name)]
  = match snd (convert driveitem drive_name) with
    | Return (Some doc) => [doc]
    | _ => []
    end.
Proof. unfold converted_of_items. simpl. now rewrite app_nil_r. Qed.

(** The documents yielded by the inner loop, put end to end, start the
    list of the buffer, the documents converted and the documents that
    follow. *)
Lemma items_loop_prefix (batch_size : Z) (docs_after : list Document)
  (continue_ : list Document -> run) :
  (forall buffer,
      exists rest,
        buffer ++ docs_after = concat (yielded (continue_ buffer)) ++ rest) ->
  forall driveitems doc_batch,
    exists rest,
      doc_batch ++ converted driveitems ++ docs_after
      = concat (yielded (run_items batch_size driveitems doc_batch continue_))
        ++ rest.
Proof.
  intros Hk. induction driveitems as [|[driveitem drive_name] rest IH];
    intros doc_batch.
  - simpl. apply Hk.
  - rewrite converted_cons, converted_single. simpl items_loop.
    destruct (snd (convert driveitem drive_name)) as [[doc|]|e].
    + destruct (Z.of_nat (List.length (doc_batch ++ [doc])) >=? batch_size)%Z.
      * destruct (IH []) as (more & Hm). exists more.
        simpl. simpl in Hm. rewrite Hm, <- !app_assoc. reflexivity.
      * destruct (IH (doc_batch ++ [doc])) as (more & Hm). exists more.
        rewrite <- Hm. rewrite <- !app_assoc. reflexivity.
    + simpl app.
      destruct (Z.of_nat (List.length doc_batch) >=? batch_size)%Z.
      * destruct (IH []) as (more & Hm). exists more.
        simpl. simpl in Hm. rewrite Hm, <- app_assoc. reflexivity.
      * apply IH.
    + simpl. eexists. reflexivity.
Qed.

Lemma sites_loop_prefix (self : SharepointConnector) (start end_ : option Z)
  (descriptors : list SiteDescriptor) :
  forall doc_batch,
    exists rest,
      doc_batch ++ converted_all self start end_ descriptors
      = concat (yielded (run_sites self start end_ descriptors doc_batch))
        ++ rest.
Proof.
  induction descriptors as [|sd rest IH]; intros doc_batch.
  - exists []. simpl. now rewrite !app_nil_r.
  - simpl. destruct (fetch self sd start end_) as [driveitems|e].
    + destruct (items_loop_prefix (batch_size self) _ _ IH driveitems doc_batch)
        as (more & Hm).
      exists more. exact Hm.
    + simpl. eexists. reflexivity.
Qed.

(** X15. Whatever the batch size, and whether the run fails or not, the
    documents of the batches it yields, put end to end, are the first
    converted documents of its targets, in order: none is yielded twice,
    none is skipped before the last one yielded. *)
Theorem yielded_documents_prefix (self : SharepointConnector)
  (start end_ : option Z) :
  exists rest,
    converted_all self start end_ (targets_of_run self)
    = concat (yielded (fetch_from_sharepoint self start end_)) ++ rest.
Proof.
  unfold _fetch_from_sharepoint, targets_of_run.
  destruct (site_descriptors self) as [|sd rest].
  - destruct (_fetch_sites self) as [descriptors|e].
    + apply (sites_loop_prefix self start end_ descriptors []).
    + simpl. eexists. reflexivity.
  - apply (sites_loop_prefix self start end_ (sd :: rest) []).
Qed.

Lemma items_loop_failing (batch_size : Z) (continue_ : list Document -> run) :
  (forall buffer,
      (Z.of_nat (List.length buffer) < batch_size)%Z ->
      failure (continue_ buffer) <> None ->
      Forall (fun batch => Z.of_nat (List.length batch) = batch_size)
        (yielded (continue_ buffer))) ->
  forall driveitems doc_batch,
    (Z.of_nat (List.length doc_batch) < batch_size)%Z ->
    failure (run_items batch_size driveitems doc_batch continue_) <> None ->
    Forall (fun batch => Z.of_nat (List.length batch) = batch_size)
      (yielded (run_items batch_size driveitems doc_batch continue_)).
Proof.
  intros Hk. induction driveitems as [|[driveitem drive_name] rest IH];
    intros doc_batch Hb Hf.
  - simpl in *. now apply Hk.
  - simpl in Hf |- *.
    destruct (snd (convert driveitem drive_name)) as [[doc|]|e].
    + destruct (Z.of_nat (List.length (doc_batch ++ [doc])) >=? batch_size)%Z
        eqn:E.
      * simpl in Hf |- *. constructor.
        -- rewrite Z.geb_leb in E. apply Z.leb_le in E.
           rewrite length_app in *. simpl in *. lia.
        -- apply IH; [simpl; lia|exact Hf].
      * apply IH; [|exact Hf].
        rewrite Z.geb_leb in E. now apply Z.leb_gt in E.
    + replace (Z.of_nat (List.length doc_batch) >=? batch_size)%Z with false in *
        by (symmetry; rewrite Z.geb_leb; apply Z.leb_gt; exact Hb).
      now apply IH.
    + constructor.
Qed.

Lemma sites_loop_failing (self : SharepointConnector) (start end_ : option Z)
  (descriptors : list SiteDescriptor) :
  forall doc_batch,
    (Z.of_nat (List.length doc_batch) < self.(batch_size))%Z ->
    failure (run_sites self start end_ descriptors doc_batch) <> None ->
    Forall (fun batch => Z.of_nat (List.length batch) = self.(batch_size))
      (yielded (run_sites self start end_ descriptors doc_batch)).
Proof.
  induction descriptors as [|sd rest IH]; intros doc_batch Hb Hf.
  - simpl in Hf. contradiction.
  - simpl in Hf |- *. destruct (fetch self sd start end_) as [driveitems|e].
    + apply (items_loop_failing _ _ IH); assumption.
    + constructor.
Qed.

(** X16. With a positive batch size, every batch yielded by a run that
    fails has exactly the batch size: the documents converted since the
    last full batch are not yielded. *)
Theorem failing_run_yields_full_batches (self : SharepointConnector)
  (start end_ : option Z) (e : exn) :
  (0 < self.(batch_size))%Z ->
  failure (fetch_from_sharepoint self start end_) = Some e ->
  Forall (fun batch => Z.of_nat (List.length batch) = self.(batch_size))
    (yielded (fetch_from_sharepoint self start end_)).
Proof.
  intros Hpos Hf. unfold _fetch_from_sharepoint in *.
  destruct (site_descriptors self) as [|sd rest].
  - destruct (_fetch_sites self) as [descriptors|x]; [|constructor].
    apply sites_loop_failing; [simpl; lia|congruence].
  - apply sites_loop_failing; [simpl; lia|congruence].
Qed.

Lemma items_loop_nonpositive (batch_size : Z) (continue_ : list Document -> run) :
  (batch_size <= 0)%Z ->
  forall driveitems,
    failure (run_items batch_size driveitems [] continue_) = None ->
    failure (continue_ []) = None
    /\ yielded (run_items batch_size driveitems [] continue_)
       = map (fun pair => converted [pair]) driveitems
         ++ yielded (continue_ []).
Proof.
  intros Hb. induction driveitems as [|[driveitem drive_name] rest IH];
    intros Hf.
  - now split.
  - cbn [map]. rewrite converted_single. cbn [items_loop] in Hf |- *.
    destruct (snd (convert driveitem drive_name)) as [[doc|]|e];
      [| |discriminate].
    + replace (Z.of_nat (List.length ([] ++ [doc])) >=? batch_size)%Z
        with true in *
        by (symmetry; rewrite Z.geb_leb; apply Z.leb_le; simpl; lia).
      simpl in Hf |- *. destruct (IH Hf) as [Hk Hy]. split; [exact Hk|].
      now rewrite Hy.
    + replace (Z.of_nat (@List.length Document []) >=? batch_size)%Z
        with true in *
        by (symmetry; rewrite Z.geb_leb; apply Z.leb_le; simpl; lia).
      simpl in Hf |- *. destruct (IH Hf) as [Hk Hy]. split; [exact Hk|].
      now rewrite Hy.
Qed.

Lemma sites_loop_nonpositive (self : SharepointConnector)
  (start end_ : option Z) (descriptors : list SiteDescriptor) :
  (self.(batch_size) <= 0)%Z ->
  failure (run_sites self start end_ descriptors []) = None ->
  yielded (run_sites self start end_ descriptors [])
  = map (fun pair => converted [pair])
      (traversed_items missing_credential_text self start end_ descriptors)
    ++ [[]].
Proof.
  intros Hb. induction descriptors as [|sd rest IH]; intros Hf.
  - reflexivity.
  - simpl in Hf |- *. unfold traversed_items in *. simpl.
    destruct (fetch self sd start end_) as [driveitems|e]; [|discriminate].
    destruct (items_loop_nonpositive _ _ Hb driveitems Hf) as [Hk Hy].
    rewrite Hy, (IH Hk), map_app, <- app_assoc. reflexivity.
Qed.

(** X17. With a batch size of zero or less, a run that ends without
    failure yields one batch for each item traversed, holding its document
    or nothing when the item is skipped, and one empty batch at the end. *)
Theorem nonpositive_batch_size (self : SharepointConnector)
  (start end_ : option Z) :
  (self.(batch_size) <= 0)%Z ->
  failure (fetch_from_sharepoint self start end_) = None ->
  yielded (fetch_from_sharepoint self start end_)
  = map (fun pair => converted [pair])
      (traversed_items missing_credential_text self start end_
         (targets_of_run self))
    ++ [[]].
Proof.
  intros Hb Hf. unfold _fetch_from_sharepoint, targets_of_run in *.
  destruct (site_descriptors self) as [|sd rest].
  - destruct (_fetch_sites self) as [descriptors|e]; [|discriminate].
    now apply sites_loop_nonpositive.
  - now apply sites_loop_nonpositive.
Qed.

Lemma items_loop_ext (batch_size : Z) (k k' : list Document -> run) :
  (forall buffer, k buffer = k' buffer) ->
  forall driveitems doc_batch,
    run_items batch_size driveitems doc_batch k
    = run_items batch_size driveitems doc_batch k'.
Proof.
  intros Hk. induction driveitems as [|[driveitem drive_name] rest IH];
    intros doc_batch; simpl; [apply Hk|].
  destruct (snd (convert driveitem drive_name)) as [doc|e]; [|reflexivity].
  destruct (Z.of_nat _ >=? batch_size)%Z; now rewrite IH.
Qed.

(** X18. A target for which the traversal returns nothing, skipped after a
    failure or empty, leaves the run as it is without this target. *)
Theorem skipped_target_is_invisible (self : SharepointConnector)
  (start end_ : option Z) (sd : SiteDescriptor)
  (before after : list SiteDescriptor) (doc_batch : list Document) :
  fetch self sd start end_ = Return [] ->
  run_sites self start end_ (before ++ sd :: after) doc_batch
  = run_sites self start end_ (before ++ after) doc_batch.
Proof.
  intros Hf. revert doc_batch.
  induction before as [|first before IH]; intros doc_batch.
  - simpl. now rewrite Hf.
  - simpl. destruct (fetch self first start end_) as [driveitems|e];
      [|reflexivity].
    apply items_loop_ext. exact IH.
Qed.

Lemma sites_loop_same_drives (batch_size : Z)
  (drives_of : string -> result (list Drive))
  (listing listing' : result SitesWithRoot) (configured : list SiteDescriptor)
  (start end_ : option Z) (descriptors : list SiteDescriptor) :
  forall doc_batch,
    run_sites
      {| batch_size := batch_size;
         _graph_client :=
           Some {| site_drives := drives_of; get_all_sites := listing |};
         site_descriptors := configured |}
      start end_ descriptors doc_batch
    = run_sites
        {| batch_size := batch_size;
           _graph_client :=
             Some {| site_drives := drives_of; get_all_sites := listing' |};
           site_descriptors := configured |}
        start end_ descriptors doc_batch.
Proof.
  induction descriptors as [|sd rest IH]; intros doc_batch; [reflexivity|].
  simpl.
  change (fetch {| batch_size := batch_size;
                   _graph_client :=
                     Some {| site_drives := drives_of;
                             get_all_sites := listing' |};
                   site_descriptors := configured |} sd start end_)
    with (fetch {| batch_size := batch_size;
                   _graph_client :=
                     Some {| site_drives := drives_of;
                             get_all_sites := listing |};
                   site_descriptors := configured |} sd start end_).
  destruct (fetch _ sd start end_) as [driveitems|e]; [|reflexivity].
  apply items_loop_ext. exact IH.
Qed.

(** X19. When targets are configured, the run does not list the sites of
    the tenant: it is the same whatever this listing would answer. *)
Theorem configured_targets_skip_enumeration (batch_size : Z)
  (drives_of : string -> result (list Drive))
  (listing listing' : result SitesWithRoot) (configured : list SiteDescriptor)
  (start end_ : option Z) :
  configured <> [] ->
  fetch_from_sharepoint
    {| batch_size := batch_size;
       _graph_client :=
         Some {| site_drives := drives_of; get_all_sites := listing |};
       site_descriptors := configured |}
    start end_
  = fetch_from_sharepoint
      {| batch_size := batch_size;
         _graph_client :=
           Some {| site_drives := drives_of; get_all_sites := listing' |};
         site_descriptors := configured |}
      start end_.
Proof.
  intros Hne. unfold _fetch_from_sharepoint. simpl site_descriptors.
  destruct configured as [|sd rest] eqn:E; [contradiction|].
  rewrite <- E. apply sites_loop_same_drives.
Qed.

End RunBatches.

(** ** More on the scope resolver *)

Section ResolverMore.

Lemma rev_involutive (s : string) : PyStr.rev (PyStr.rev s) = s.
Proof.
  assert (H : forall s acc,
             PyStr.rev (PyStr.rev_append s acc)
             = PyStr.rev_append acc s).
  { clear s. induction s as [|c s IH]; intros acc; [reflexivity|].
    simpl. now rewrite IH. }
  unfold PyStr.rev at 2. now rewrite H.
Qed.

Lemma contains_char_cons (sep c : ascii) (s : string) :
  PyStr.contains (String sep "") (String c s) = false ->
  Ascii.eqb sep c = false /\ PyStr.contains (String sep "") s = false.
Proof.
  simpl. destruct (ascii_dec sep c) as [->|Hne].
  - destruct s; discriminate.
  - intros H. split; [now apply Ascii.eqb_neq|exact H].
Qed.

(** Passing over a piece that has no separator. *)
Lemma split_go_piece (sep : ascii) (piece : string) :
  forall cur rest,
    PyStr.contains (String sep "") piece = false ->
    PyStr.split_go (String sep "") 0 cur (piece ++ rest)
    = PyStr.split_go (String sep "") 0 (PyStr.rev_append piece cur) rest.
Proof.
  induction piece as [|c piece IH]; intros cur rest H; [reflexivity|].
  apply contains_char_cons in H as [Hc H].
  change (String c piece ++ rest)%string with (String c (piece ++ rest)%string).
  rewrite split_go_char, Hc. now rewrite IH.
Qed.

(** Splitting the join of pieces that have no separator gives them back. *)
Lemma split_join (sep : ascii) (parts : list string) :
  parts <> [] ->
  (forall piece, In piece parts ->
                 PyStr.contains (String sep "") piece = false) ->
  PyStr.split (String sep "") (PyStr.join (String sep "") parts) = parts.
Proof.
  unfold PyStr.split.
  induction parts as [|piece parts IH]; intros Hne Hall; [contradiction|].
  destruct parts as [|next parts].
  - simpl. rewrite split_go_without_sep by (apply Hall; now left).
    reflexivity.
  - rewrite join_cons by discriminate.
    rewrite split_go_piece by (apply Hall; now left).
    change (String sep "" ++ PyStr.join (String sep "") (next :: parts))%string
      with (String sep (PyStr.join (String sep "") (next :: parts))).
    rewrite split_go_char, Ascii.eqb_refl.
    fold (PyStr.rev piece). rewrite rev_involutive.
    f_equal. apply IH; [discriminate|].
    intros p Hp. apply Hall. now right.
Qed.

Lemma index_firstn (x : string) (parts : list string) :
  forall i,
    PyStr.index x parts = Some i ->
    PyStr.index x (firstn (i + 2) parts) = Some i
    /\ firstn (i + 2) parts <> [].
Proof.
  induction parts as [|p parts IH]; intros i H; [discriminate|].
  simpl in H. destruct (String.eqb p x) eqn:E.
  - injection H as <-. simpl. rewrite E. split; [reflexivity|discriminate].
  - destruct (PyStr.index x parts) as [j|] eqn:Ej; [|discriminate].
    injection H as <-. simpl. rewrite E.
    destruct (IH j eq_refl) as [-> _]. split; [reflexivity|discriminate].
Qed.

Lemma index_mem (x : string) (parts : list string) (i : nat) :
  PyStr.index x parts = Some i -> PyStr.mem x parts = true.
Proof.
  revert i. unfold PyStr.mem.
  induction parts as [|p parts IH]; intros i H; [discriminate|].
  simpl in H |- *. rewrite String.eqb_sym.
  destruct (String.eqb p x); [reflexivity|].
  destruct (PyStr.index x parts) as [j|]; [|discriminate].
  now apply (IH j).
Qed.

(** The target of a string is determined by [index] alone. *)
Lemma extract_one_index (s : string) :
  extract_one s
  = match PyStr.index "sites" (PyStr.split "/" (PyStr.strip s)) with
    | Some i =>
        let parts := PyStr.split "/" (PyStr.strip s) in
        [ {| url := PyStr.join "/" (firstn (i + 2) parts);
             drive_name :=
               match skipn (i + 2) parts with
               | [] => None
               | first :: _ => Some (PyStr.unquote first)
               end;
             folder_path :=
               match skipn (i + 2) parts with
               | _ :: ((_ :: _) as tail) =>
                   Some (PyStr.join "/" (map PyStr.unquote tail))
               | _ => None
               end |} ]
    | None => []
    end.
Proof.
  unfold extract_one.
  destruct (PyStr.index "sites" (PyStr.split "/" (PyStr.strip s))) as [i|] eqn:E.
  - rewrite (index_mem _ _ _ E). simpl.
    destruct (skipn (i + 2) _) as [|first [|second rest]]; reflexivity.
  - destruct (PyStr.mem "sites" _); reflexivity.
Qed.

(** X20. The resolver gives at most one target for each string; a target
    with a folder path has a drive name; and one of the segments of its
    root URL is [sites]. *)
Theorem resolver_target_invariants (site_urls : list string) :
  List.length (_extract_site_and_drive_info site_urls) <= List.length site_urls
  /\ forall t,
      In t (_extract_site_and_drive_info site_urls) ->
      (t.(folder_path) <> None -> t.(drive_name) <> None)
      /\ In "sites" (PyStr.split "/" t.(url)).
Proof.
  unfold _extract_site_and_drive_info. split.
  - induction site_urls as [|s site_urls IH]; [reflexivity|].
    simpl. rewrite length_app, extract_one_index.
    destruct (PyStr.index "sites" _); simpl; lia.
  - intros t Hin. apply in_flat_map in Hin as (s & _ & Hin).
    rewrite extract_one_index in Hin.
    destruct (PyStr.index "sites" (PyStr.split "/" (PyStr.strip s)))
      as [i|] eqn:E; [|contradiction].
    destruct Hin as [<-|[]]. simpl. split.
    + destruct (skipn (i + 2) _) as [|first [|second rest]];
        intros H; congruence.
    + destruct (index_firstn _ _ _ E) as [Hi Hne].
      rewrite split_join; [|exact Hne|].
      * apply mem_In. now apply (index_mem _ _ i).
      * intros piece Hp. apply (split_pieces "/" (PyStr.strip s)).
        rewrite <- (firstn_skipn (i + 2)). apply in_or_app. now left.
Qed.

(** X21. The root URL of a target, when no whitespace surrounds it, is a
    scope string of its own: the resolver gives for it the target of the
    whole site, with the same root URL and neither drive name nor folder
    path. *)
Theorem resolver_root_url_fixpoint (s : string) (t : SiteDescriptor) :
  In t (_extract_site_and_drive_info [s]) ->
  PyStr.strip t.(url) = t.(url) ->
  _extract_site_and_drive_info [t.(url)]
  = [ {| url := t.(url); drive_name := None; folder_path := None |} ].
Proof.
  unfold _extract_site_and_drive_info. simpl. rewrite !app_nil_r.
  rewrite extract_one_index.
  destruct (PyStr.index "sites" (PyStr.split "/" (PyStr.strip s)))
    as [i|] eqn:E; [|contradiction].
  intros [<-|[]] Hs. simpl in Hs |- *.
  destruct (index_firstn _ _ _ E) as [Hi Hne].
  assert (Hsplit : PyStr.split "/"
                     (PyStr.join "/"
                        (firstn (i + 2) (PyStr.split "/" (PyStr.strip s))))
                   = firstn (i + 2) (PyStr.split "/" (PyStr.strip s))).
  { apply split_join; [exact Hne|].
    intros piece Hp. apply (split_pieces "/" (PyStr.strip s)).
    rewrite <- (firstn_skipn (i + 2)). apply in_or_app. now left. }
  rewrite extract_one_index, Hs, Hsplit, Hi. cbv zeta.
  rewrite firstn_firstn, Nat.min_id.
  rewrite skipn_all2; [reflexivity|]. apply firstn_le_length.
Qed.

End ResolverMore.

(** * Properties of the store of the enterprise settings *)

Module StoreProperties.

Import EnterpriseStore.

(** ** File types *)

Lemma lower_rev_append (s acc : string) :
  PyStr.rev_append (lower s) (lower acc) = lower (PyStr.rev_append s acc).
Proof.
  revert acc. induction s as [|c s IH]; intros acc; [reflexivity|].
  simpl. now rewrite <- IH.
Qed.

Lemma lower_rev (s : string) : PyStr.rev (lower s) = lower (PyStr.rev s).
Proof. unfold PyStr.rev. now rewrite <- lower_rev_append. Qed.

Lemma prefix_lower (p s : string) :
  prefix p s = true -> prefix (lower p) (lower s) = true.
Proof.
  revert s. induction p as [|a p IH]; intros s H; [now destruct s|].
  destruct s as [|b s]; [discriminate|].
  simpl in H |- *. destruct (ascii_dec a b) as [->|]; [|discriminate].
  destruct (ascii_dec (lower_char b) (lower_char b)); [now apply IH|contradiction].
Qed.

(** A name that ends with a suffix in lower case still does once it is
    put in lower case. *)
Lemma endswith_lower (s suffix : string) :
  lower suffix = suffix ->
  endswith s suffix = true ->
  endswith (lower s) suffix = true.
Proof.
  unfold endswith. intros Hs H. rewrite lower_rev, <- Hs, lower_rev.
  now apply prefix_lower.
Qed.

Lemma is_valid_file_type_cases (name : string) :
  is_valid_file_type name = true
  <-> endswith name ".png" = true
      \/ endswith name ".jpg" = true
      \/ endswith name ".jpeg" = true.
Proof.
  unfold is_valid_file_type, valid_extensions. simpl.
  rewrite !orb_true_iff. intuition discriminate.
Qed.

Lemma prefix_cons_inv (a : ascii) (p s : string) :
  prefix (String a p) s = true ->
  exists s', s = String a s' /\ prefix p s' = true.
Proof.
  destruct s as [|b s]; cbn [prefix]; [discriminate|].
  destruct (ascii_dec a b) as [->|]; [|discriminate].
  intros H. now exists s.
Qed.

Lemma not_png_jpg (s : string) :
  endswith s ".jpg" = true \/ endswith s ".jpeg" = true ->
  endswith s ".png" = false.
Proof.
  unfold endswith. generalize (PyStr.rev s) as r. intros r.
  change (PyStr.rev ".jpg") with "gpj.".
  change (PyStr.rev ".jpeg") with "gepj.".
  change (PyStr.rev ".png") with "gnp.".
  intros H. destruct (prefix "gnp." r) eqn:E; [exfalso|reflexivity].
  apply prefix_cons_inv in E as (r1 & -> & E).
  apply prefix_cons_inv in E as (r2 & -> & _).
  destruct H as [H|H];
    apply prefix_cons_inv in H as (r3 & H3 & H);
    apply prefix_cons_inv in H as (r4 & -> & _);
    discriminate.
Qed.

Lemma guess_of_valid (name : string) :
  is_valid_file_type name = true ->
  guess_file_type name
  = if endswith name ".png" then "image/png" else "image/jpeg".
Proof.
  intros H. apply is_valid_file_type_cases in H. unfold guess_file_type.
  destruct (endswith name ".png") eqn:Ep.
  - now rewrite (endswith_lower name ".png" eq_refl Ep).
  - assert (Hj : endswith (lower name) ".jpg" = true
                 \/ endswith (lower name) ".jpeg" = true).
    { destruct H as [H|[H|H]]; [congruence| |].
      - left. now apply endswith_lower.
      - right. now apply endswith_lower. }
    rewrite (not_png_jpg _ Hj).
    destruct Hj as [-> | ->]; [reflexivity|].
    now rewrite orb_true_r.
Qed.

(** X22. A file name that [is_valid_file_type] accepts is never typed
    [application/octet-stream] by [guess_file_type]: it is typed
    [image/png] when it ends with [.png], and [image/jpeg] otherwise. *)
Theorem valid_file_has_image_type (name : string) :
  is_valid_file_type name = true ->
  guess_file_type name
  = (if endswith name ".png" then "image/png" else "image/jpeg")
  /\ guess_file_type name <> "application/octet-stream".
Proof.
  intros H. rewrite (guess_of_valid name H).
  split; [reflexivity|]. destruct (endswith name ".png"); discriminate.
Qed.

(** ** The logo *)

(** X23. [upload_logo] saves at most one file, and saves one exactly when
    it returns [True]: then the file has the identifier of the logotype or
    of the logo according to the flag, the origin [OTHER], and a display
    name that [is_valid_file_type] accepts. *)
Theorem upload_logo_saves (fs : string -> path_state) (file : logo_file)
  (is_logotype : bool) :
  (snd (upload_logo fs file is_logotype) = Returns true
   /\ exists saved,
       fst (upload_logo fs file is_logotype) = [saved]
       /\ saved.(file_id)
          = (if is_logotype then "__logotype__" else "__logo__")
       /\ saved.(file_origin) = OTHER
       /\ is_valid_file_type saved.(display_name) = true)
  \/ (snd (upload_logo fs file is_logotype) <> Returns true
      /\ fst (upload_logo fs file is_logotype) = []).
Proof.
  unfold upload_logo, isfile.
  destruct file as [path|upload];
    [destruct (fs path) as [|message|file_content]
    |destruct (filename upload) as [name|];
       [destruct (String.eqb name "")|]];
    cbn [negb orb];
    try (destruct (is_valid_file_type _) eqn:Hv; cbn [negb orb]);
    first
      [ right; split; [discriminate|reflexivity]
      | left; split; [reflexivity|];
        eexists; split; [reflexivity|];
        cbn [file_id file_origin display_name];
        repeat split; try assumption; now destruct is_logotype ].
Qed.

(** X24. A logo saved from a local path holds the content of the file at
    this path, is displayed under the path, and is typed [image/png] or
    [image/jpeg], never anything else. *)
Theorem upload_logo_from_path (fs : string -> path_state) (path : string)
  (is_logotype : bool) (saved : SavedFile) :
  In saved (fst (upload_logo fs (Path path) is_logotype)) ->
  fs path = RegularFile saved.(content)
  /\ saved.(display_name) = path
  /\ (saved.(file_type) = "image/png" \/ saved.(file_type) = "image/jpeg").
Proof.
  unfold upload_logo, isfile.
  destruct (fs path) as [|message|file_content]; cbn [negb orb];
    try (destruct (is_valid_file_type path) eqn:Hv; cbn [negb orb]);
    cbn [fst In]; try contradiction.
  intros [<-|[]]. cbn [content display_name file_type].
  repeat split.
  rewrite (guess_of_valid path Hv).
  destruct (endswith path ".png"); [now left|now right].
Qed.

(** X25. A name that [is_valid_file_type] refuses is answered in two ways:
    as a local path, [upload_logo] returns [False]; as the name of an
    uploaded file, it raises an [HTTPException] with status 400; in both
    cases nothing is saved.  An upload without a name, or with an empty
    one, is refused in the same way. *)
Theorem upload_logo_refuses (fs : string -> path_state) (is_logotype : bool) :
  (forall name,
      is_valid_file_type name = false ->
      upload_logo fs (Path name) is_logotype = ([], Returns false)
      /\ forall content_type file,
          upload_logo fs
            (Upload {| filename := Some name;
                       content_type := content_type;
                       file_ := file |})
            is_logotype
          = ([], Raises (HTTPException 400 invalid_file_type)))
  /\ (forall upload,
         upload.(filename) = None \/ upload.(filename) = Some "" ->
         upload_logo fs (Upload upload) is_logotype
         = ([], Raises (HTTPException 400 invalid_file_type))).
Proof.
  split.
  - intros name Hv. unfold upload_logo. simpl. rewrite Hv. simpl. split.
    + now rewrite orb_true_r.
    + intros content_type file. now rewrite orb_true_r.
  - intros upload [H|H]; unfold upload_logo; rewrite H; reflexivity.
Qed.

End StoreProperties.

(** * Properties of the stored settings and script *)

Module SettingsProperties.

Import EnterpriseStore.

Section Settings.

Variable Fields : Type.
Variable Dict : Type.
Variable model_dump : EnterpriseSettings Fields -> Dict.
Variable model_validate : kv_value Dict -> outcome (EnterpriseSettings Fields).
Variable default_settings : EnterpriseSettings Fields.
Variable KV_ENTERPRISE_SETTINGS_KEY : string.
Variable KV_CUSTOM_ANALYTICS_SCRIPT_KEY : string.
Variable ONYX_DEFAULT_APPLICATION_NAME : string.
Variable _CUSTOM_ANALYTICS_SECRET_KEY : option string.

Local Abbreviation load_settings_ :=
  (load_settings Fields Dict model_dump model_validate default_settings
     KV_ENTERPRISE_SETTINGS_KEY).
Local Abbreviation store_settings_ :=
  (store_settings Fields Dict model_dump KV_ENTERPRISE_SETTINGS_KEY).
Local Abbreviation load_runtime_settings_ :=
  (load_runtime_settings Fields Dict model_dump model_validate default_settings
     KV_ENTERPRISE_SETTINGS_KEY ONYX_DEFAULT_APPLICATION_NAME).
Local Abbreviation load_analytics_script_ :=
  (load_analytics_script Dict KV_CUSTOM_ANALYTICS_SCRIPT_KEY).
Local Abbreviation store_analytics_script_ :=
  (store_analytics_script Dict KV_CUSTOM_ANALYTICS_SCRIPT_KEY
     _CUSTOM_ANALYTICS_SECRET_KEY).

Lemma kv_load_put_same (key : string) (v : kv_value Dict) (kv : kv_store Dict) :
  kv_load key (kv_put key v kv) = Returns v.
Proof. simpl. now rewrite String.eqb_refl. Qed.

Lemma kv_load_put_other (key other : string) (v : kv_value Dict)
  (kv : kv_store Dict) :
  other <> key ->
  kv_load other (kv_put key v kv) = kv_load other kv.
Proof.
  intros H. simpl.
  replace (String.eqb key other) with false; [reflexivity|].
  symmetry. apply String.eqb_neq. congruence.
Qed.

Lemma kv_load_cases (key : string) (kv : kv_store Dict) :
  (kv_load key kv = Raises KvKeyNotFoundError
   /\ forall v, ~ In (key, v) kv)
  \/ (exists v, kv_load key kv = Returns v /\ In (key, v) kv).
Proof.
  induction kv as [|[k v] kv IH]; simpl.
  - left. split; [reflexivity|]. intros v [].
  - destruct (String.eqb k key) eqn:E.
    + apply String.eqb_eq in E. subst k. right. exists v. split; [reflexivity|].
      now left.
    + apply String.eqb_neq in E. destruct IH as [[H Hn]|(w & H & Hin)].
      * left. split; [exact H|]. intros w [Hw|Hw]; [congruence|].
        now apply (Hn w).
      * right. exists w. split; [exact H|now right].
Qed.

(** X26. The upload of a script is accepted exactly when a secret key is
    configured, is not empty, and is the one the upload carries: then the
    script is stored.  Otherwise, and always when no secret key is
    configured, it raises a [ValueError] and the store is left as it is. *)
Theorem analytics_secret_gate (upload : AnalyticsScriptUpload)
  (kv : kv_store Dict) :
  ((exists key,
       _CUSTOM_ANALYTICS_SECRET_KEY = Some key
       /\ key <> "" /\ upload.(secret_key) = key)
   /\ store_analytics_script_ upload kv
      = (Returns tt,
         kv_put KV_CUSTOM_ANALYTICS_SCRIPT_KEY (KvStr upload.(script)) kv))
  \/ ((_CUSTOM_ANALYTICS_SECRET_KEY = None
       \/ _CUSTOM_ANALYTICS_SECRET_KEY = Some ""
       \/ exists key,
           _CUSTOM_ANALYTICS_SECRET_KEY = Some key
           /\ upload.(secret_key) <> key)
      /\ store_analytics_script_ upload kv
         = (Raises (ValueError "Invalid secret key"), kv)).
Proof.
  unfold store_analytics_script.
  destruct _CUSTOM_ANALYTICS_SECRET_KEY as [key|]; simpl.
  - destruct (String.eqb key "") eqn:Ek; simpl.
    + apply String.eqb_eq in Ek. subst key. right. split; [|reflexivity].
      right. now left.
    + apply String.eqb_neq in Ek.
      destruct (String.eqb (secret_key upload) key) eqn:Es; simpl.
      * apply String.eqb_eq in Es. left. split; [|reflexivity].
        now exists key.
      * apply String.eqb_neq in Es. right. split; [|reflexivity].
        right. right. now exists key.
  - right. split; [now left|reflexivity].
Qed.

(** X27. After an accepted upload, [load_analytics_script] returns the
    script uploaded, whatever was stored before. *)
Theorem analytics_round_trip (upload : AnalyticsScriptUpload)
  (kv : kv_store Dict) (key : string) :
  _CUSTOM_ANALYTICS_SECRET_KEY = Some key ->
  key <> "" ->
  upload.(secret_key) = key ->
  load_analytics_script_ (snd (store_analytics_script_ upload kv))
  = Returns (Some (KvStr upload.(script))).
Proof.
  intros Hk Hne Hs. unfold store_analytics_script. rewrite Hk. simpl.
  replace (String.eqb key "") with false
    by (symmetry; now apply String.eqb_neq).
  replace (String.eqb (secret_key upload) key) with true
    by (symmetry; now apply String.eqb_eq).
  simpl. unfold load_analytics_script. now rewrite kv_load_put_same.
Qed.

(** [load_analytics_script] never raises: it returns [None] exactly
    when the store holds nothing under the key of the script. *)
Lemma analytics_load_total (kv : kv_store Dict) :
  (load_analytics_script_ kv = Returns None
   /\ forall v, ~ In (KV_CUSTOM_ANALYTICS_SCRIPT_KEY, v) kv)
  \/ (exists v,
         load_analytics_script_ kv = Returns (Some v)
         /\ In (KV_CUSTOM_ANALYTICS_SCRIPT_KEY, v) kv).
Proof.
  unfold load_analytics_script.
  destruct (kv_load_cases KV_CUSTOM_ANALYTICS_SCRIPT_KEY kv)
    as [[H Hn]|(v & H & Hin)]; rewrite H.
  - left. now split.
  - right. now exists v.
Qed.

(** X28. On a store that holds no settings, [load_settings] returns the
    default settings and stores them: the store then holds their dump
    under the key of the settings, and what it holds under the other keys
    is unchanged. *)
Theorem load_settings_first_load (kv : kv_store Dict) :
  kv_load KV_ENTERPRISE_SETTINGS_KEY kv = Raises KvKeyNotFoundError ->
  fst (load_settings_ kv) = Returns default_settings
  /\ kv_load KV_ENTERPRISE_SETTINGS_KEY (snd (load_settings_ kv))
     = Returns (KvDict (model_dump default_settings))
  /\ forall other,
      other <> KV_ENTERPRISE_SETTINGS_KEY ->
      kv_load other (snd (load_settings_ kv)) = kv_load other kv.
Proof.
  intros H. unfold load_settings, load_stored_settings. rewrite H. simpl.
  split; [reflexivity|]. split.
  - now rewrite String.eqb_refl.
  - intros other Ho.
    replace (String.eqb KV_ENTERPRISE_SETTINGS_KEY other) with false;
      [reflexivity|].
    symmetry. apply String.eqb_neq. congruence.
Qed.

(** X29. Settings that their dump validates to are read back as they were
    stored, and reading them writes nothing. *)
Theorem settings_round_trip (settings : EnterpriseSettings Fields)
  (kv : kv_store Dict) :
  model_validate (KvDict (model_dump settings)) = Returns settings ->
  load_settings_ (store_settings_ settings kv)
  = (Returns settings, store_settings_ settings kv).
Proof.
  intros H. unfold load_settings, load_stored_settings, store_settings.
  now rewrite kv_load_put_same, H.
Qed.

(** X30. [load_runtime_settings] leaves the store as [load_settings]
    leaves it, so that the default application name is not stored; it
    fails when [load_settings] fails, and otherwise returns the settings
    loaded, with the default application name in place of a missing or
    empty one. *)
Theorem runtime_settings_default (kv : kv_store Dict) :
  snd (load_runtime_settings_ kv) = snd (load_settings_ kv)
  /\ match fst (load_settings_ kv) with
     | Returns settings =>
         fst (load_runtime_settings_ kv)
         = Returns
             {| application_name :=
                  match settings.(application_name) with
                  | Some "" | None => Some ONYX_DEFAULT_APPLICATION_NAME
                  | Some given => Some given
                  end;
                other_fields := settings.(other_fields) |}
     | Raises e => fst (load_runtime_settings_ kv) = Raises e
     end.
Proof.
  unfold load_runtime_settings.
  destruct (load_settings_ kv) as [[settings|e] kv']; simpl;
    split; try reflexivity.
  destruct settings as [[[|c given]|] other]; reflexivity.
Qed.

End Settings.

End SettingsProperties.

(** * Witnesses of the further properties *)


Lemma sleep_and_retry_negative_witness :
  _sleep_and_retry throttled_query "get_content" (-1) = ([], Return None).
Proof.
  apply (sleep_and_retry_negative throttled_query (-1) "get_content"). lia.
Defined.


Lemma converter_document_fields_witness :
  (build_document example_extract_file_text nested_item "Shared Documents"
     example_content).(metadata)
  = [("drive", "Shared Documents")].
Proof.
  assert (H : snd (_convert_driveitem_to_document 1000
                     example_extract_file_text nested_item "Shared Documents")
              = Return (Some (build_document example_extract_file_text
                                nested_item "Shared Documents" example_content)))
    by reflexivity.
  destruct (converter_document_fields 1000 example_extract_file_text nested_item
              "Shared Documents" _ H) as (_ & _ & _ & _ & Hm & _).
  exact Hm.
Defined.

Lemma traversal_isolates_drives_witness :
  exists pairs,
    _fetch_driveitems example_missing_credential_text
      (example_connector 2 ["https://host/sites/A"])
      {| url := "https://host/sites/A"; drive_name := None; folder_path := None |}
      None None
    = Return pairs
    /\ forall pair,
        In pair pairs
        <-> exists drive listed,
              In drive
                (filter_drives None [documents_drive; archive_drive])
              /\ process_drive
                   {| url := "https://host/sites/A";
                      drive_name := None; folder_path := None |}
                   None None drive
                 = Return listed
              /\ In pair listed.
Proof.
  apply (traversal_isolates_drives example_missing_credential_text
           (example_connector 2 ["https://host/sites/A"])
           {| url := "https://host/sites/A";
              drive_name := None; folder_path := None |}
           None None example_client [documents_drive; archive_drive]);
    reflexivity.
Defined.

Lemma traversal_lists_everything_witness :
  _fetch_driveitems example_missing_credential_text
    (example_connector 2 ["https://host/sites/A"])
    {| url := "https://host/sites/A"; drive_name := None; folder_path := None |}
    None None
  = Return (flat_map listed_pairs [documents_drive; archive_drive]).
Proof.
  apply (traversal_lists_everything example_missing_credential_text
           (example_connector 2 ["https://host/sites/A"])
           "https://host/sites/A" example_client
           [documents_drive; archive_drive]);
    reflexivity.
Defined.

Lemma traversal_never_labels_documents_witness :
  "Shared Documents" <> "Documents".
Proof.
  apply (traversal_never_labels_documents example_missing_credential_text
           (example_connector 2 ["https://host/sites/A"])
           {| url := "https://host/sites/A";
              drive_name := Some "Shared Documents";
              folder_path := None |}
           None None [(nested_item, "Shared Documents")] nested_item).
  - reflexivity.
  - left. reflexivity.
Defined.

Lemma unmarked_path_drops_drive_witness :
  process_drive
    {| url := "https://host/sites/A";
       drive_name := None; folder_path := Some "test" |}
    None None team_drive
  = Raise (IndexError "list index out of range")
  /\ process_drives
       {| url := "https://host/sites/A";
          drive_name := None; folder_path := Some "test" |}
       None None ([documents_drive] ++ team_drive :: [archive_drive])
     = process_drives
         {| url := "https://host/sites/A";
            drive_name := None; folder_path := Some "test" |}
         None None ([documents_drive] ++ [archive_drive]).
Proof.
  apply (unmarked_path_drops_drive
           {| url := "https://host/sites/A";
              drive_name := None; folder_path := Some "test" |}
           "test" None None team_drive [nested_item; root_item] root_item
           [documents_drive] [archive_drive]).
  - reflexivity.
  - discriminate.
  - reflexivity.
  - right. left. reflexivity.
  - reflexivity.
Defined.

Lemma folder_filter_keeps_matching_pieces_witness :
  filter_by_folder (Some "test") [nested_item]
  = Return (filter (fun item => PyStr.mem "test" (path_pieces item))
              [nested_item]).
Proof.
  apply (folder_filter_keeps_matching_pieces "test" [nested_item]).
  - discriminate.
  - constructor; [reflexivity|constructor].
Defined.

Lemma fetch_sites_pages_witness :
  _fetch_sites paged_connector
  = Return
      [ {| url := "https://host/sites/A";
           drive_name := None; folder_path := None |};
        {| url := "https://host/sites/B";
           drive_name := None; folder_path := None |} ].
Proof.
  apply (fetch_sites_pages paged_connector
           {| site_drives := fun _ => Return [archive_drive];
              get_all_sites := Return two_pages |}
           two_pages).
  - reflexivity.
  - reflexivity.
  - repeat constructor; discriminate.
Defined.

Lemma fetch_sites_result_witness :
  [ {| url := "https://host/sites/A"; drive_name := None; folder_path := None |};
    {| url := "https://host/sites/B"; drive_name := None; folder_path := None |} ]
  <> [].
Proof.
  apply (fetch_sites_result paged_connector). reflexivity.
Defined.

Lemma enumeration_failures_are_fatal_witness :
  _fetch_from_sharepoint 1000 example_extract_file_text
    example_missing_credential_text (init 2 []) None None
  = {| yielded := [];
       failure := Some (ConnectorMissingCredentialError "Sharepoint") |}.
Proof.
  assert (H : site_descriptors (init 2 []) = []) by reflexivity.
  destruct (enumeration_failures_are_fatal 1000 example_extract_file_text
              example_missing_credential_text (init 2 []) None None H)
    as [Hc _].
  apply Hc. reflexivity.
Defined.

Lemma failing_run_yields_full_batches_witness :
  Forall (fun batch => Z.of_nat (List.length batch) = 2%Z)
    (yielded
       (_fetch_from_sharepoint 1000 example_extract_file_text
          example_missing_credential_text flaky_connector None None)).
Proof.
  apply (failing_run_yields_full_batches 1000 example_extract_file_text
           example_missing_credential_text flaky_connector None None
           (ClientRequestException None "connection aborted")).
  - simpl. lia.
  - reflexivity.
Defined.

Lemma nonpositive_batch_size_witness :
  List.length
    (yielded
       (_fetch_from_sharepoint 1000 example_extract_file_text
          example_missing_credential_text
          (example_connector 0 ["https://host/sites/A/Archive"]) None None))
  = 6.
Proof.
  rewrite (nonpositive_batch_size 1000 example_extract_file_text
             example_missing_credential_text
             (example_connector 0 ["https://host/sites/A/Archive"]) None None).
  - reflexivity.
  - simpl. lia.
  - reflexivity.
Defined.

Lemma skipped_target_is_invisible_witness :
  sites_loop 1000 example_extract_file_text example_missing_credential_text
    (example_connector 2 [])
    None None
    ([] ++ {| url := "https://host/sites/A";
              drive_name := Some "Missing"; folder_path := None |}
        :: [ {| url := "https://host/sites/A";
                drive_name := Some "Archive"; folder_path := None |} ])
    []
  = sites_loop 1000 example_extract_file_text example_missing_credential_text
      (example_connector 2 [])
      None None
      ([] ++ [ {| url := "https://host/sites/A";
                  drive_name := Some "Archive"; folder_path := None |} ])
      [].
Proof.
  apply (skipped_target_is_invisible 1000 example_extract_file_text
           example_missing_credential_text (example_connector 2 []) None None).
  reflexivity.
Defined.

Lemma configured_targets_skip_enumeration_witness :
  _fetch_from_sharepoint 1000 example_extract_file_text
    example_missing_credential_text
    {| batch_size := 2;
       _graph_client :=
         Some {| site_drives := fun _ => Return [archive_drive];
                 get_all_sites := Return two_pages |};
       site_descriptors :=
         [ {| url := "https://host/sites/A";
              drive_name := None; folder_path := None |} ] |}
    None None
  = _fetch_from_sharepoint 1000 example_extract_file_text
      example_missing_credential_text
      {| batch_size := 2;
         _graph_client :=
           Some {| site_drives := fun _ => Return [archive_drive];
                   get_all_sites := Raise (RuntimeError "unreachable") |};
         site_descriptors :=
           [ {| url := "https://host/sites/A";
                drive_name := None; folder_path := None |} ] |}
      None None.
Proof.
  apply (configured_targets_skip_enumeration 1000 example_extract_file_text
           example_missing_credential_text).
  discriminate.
Defined.

Lemma resolver_root_url_fixpoint_witness :
  _extract_site_and_drive_info ["https://host/sites/A"]
  = [ {| url := "https://host/sites/A";
         drive_name := None; folder_path := None |} ].
Proof.
  apply (resolver_root_url_fixpoint
           "https://host/sites/A/Shared Documents/sub folder"
           {| url := "https://host/sites/A";
              drive_name := Some "Shared Documents";
              folder_path := Some "sub folder" |}).
  - left. reflexivity.
  - reflexivity.
Defined.

Lemma valid_file_has_image_type_witness :
  EnterpriseStore.guess_file_type "/srv/logo.jpeg" = "image/jpeg".
Proof.
  destruct (StoreProperties.valid_file_has_image_type "/srv/logo.jpeg" eq_refl)
    as [H _].
  exact H.
Defined.

Lemma upload_logo_from_path_witness :
  example_fs "/srv/logo.jpeg"
  = EnterpriseStore.RegularFile example_logo.(EnterpriseStore.content)
  /\ example_logo.(EnterpriseStore.display_name) = "/srv/logo.jpeg"
  /\ (example_logo.(EnterpriseStore.file_type) = "image/png"
      \/ example_logo.(EnterpriseStore.file_type) = "image/jpeg").
Proof.
  apply (StoreProperties.upload_logo_from_path example_fs "/srv/logo.jpeg" false
           example_logo).
  left. reflexivity.
Defined.

Lemma analytics_round_trip_witness :
  EnterpriseStore.load_analytics_script unit "analytics"
    (snd (EnterpriseStore.store_analytics_script unit "analytics"
            (Some "s3cret") example_upload []))
  = EnterpriseStore.Returns
      (Some (EnterpriseStore.KvStr "console.log(1)")).
Proof.
  apply (SettingsProperties.analytics_round_trip unit "analytics"
           (Some "s3cret") example_upload [] "s3cret").
  - reflexivity.
  - discriminate.
  - reflexivity.
Defined.

Lemma load_settings_first_load_witness :
  fst (EnterpriseStore.load_settings unit
         (EnterpriseStore.EnterpriseSettings unit) (fun s => s)
         example_validate example_settings "settings" [])
  = EnterpriseStore.Returns example_settings.
Proof.
  destruct (SettingsProperties.load_settings_first_load unit
              (EnterpriseStore.EnterpriseSettings unit) (fun s => s)
              example_validate example_settings "settings" [] eq_refl)
    as [H _].
  exact H.
Defined.

Lemma settings_round_trip_witness :
  EnterpriseStore.load_settings unit
    (EnterpriseStore.EnterpriseSettings unit) (fun s => s)
    example_validate
    {| EnterpriseStore.application_name := None;
       EnterpriseStore.other_fields := tt |}
    "settings"
    (EnterpriseStore.store_settings unit
       (EnterpriseStore.EnterpriseSettings unit) (fun s => s) "settings"
       example_settings [])
  = (EnterpriseStore.Returns example_settings,
     EnterpriseStore.store_settings unit
       (EnterpriseStore.EnterpriseSettings unit) (fun s => s) "settings"
       example_settings []).
Proof.
  apply (SettingsProperties.settings_round_trip unit
           (EnterpriseStore.EnterpriseSettings unit) (fun s => s)
           example_validate
           {| EnterpriseStore.application_name := None;
              EnterpriseStore.other_fields := tt |}
           "settings" example_settings []).
  reflexivity.
Defined.
